(** * exception: annotated errors with location traces

    A shallow embedding of the Go package [exception] (type [CustomError],
    its functional options, the wrap entry points and the inspection
    functions), followed by the properties of the specification.

    Go values of interface type [error] are modelled by [error]; objects of
    type [CustomError] live in a heap indexed by addresses, so that the
    in-place update performed by [wrapError] and the identity of the returned
    reference are visible. *)

From stdpp Require Import gmap strings list pretty.
From Stdlib Require Import ZArith Lia.

Local Open Scope string_scope.

(** ** Data model *)

(** [type ErrorCode int] *)
Definition ErrorCode := Z.

Definition ErrorBadRequest : ErrorCode := 400%Z.
Definition ErrorUnauthorized : ErrorCode := 401%Z.
Definition ErrorForbidden : ErrorCode := 403%Z.
Definition ErrorNotFound : ErrorCode := 404%Z.
Definition ErrorInternalServer : ErrorCode := 500%Z.
Definition ErrorNotImplemented : ErrorCode := 501%Z.
Definition ErrorServiceUnavailable : ErrorCode := 503%Z.

(** Addresses of heap-allocated [CustomError] objects. *)
Definition loc := positive.

(** A value of the interface type [error]: the nil interface, a value whose
    dynamic type is not pointer-to-[CustomError] (identified by its identity and its
    text), or a pointer to a [CustomError], which may itself be the nil
    pointer. *)
Inductive error : Type :=
  | ENil : error
  | EPlain (id : positive) (msg : string) : error
  | ECustom (p : option loc) : error.

Global Instance error_eq_dec : EqDecision error.
Proof. solve_decision. Defined.

(** [type CustomError struct] *)
Record CustomError : Type := mkCustomError {
  code : ErrorCode;
  Message : string;
  Trace : string;
  PreviousTraces : list string;
  Err : error
}.

(** [&CustomError{}]: every field at its zero value. *)
Definition zeroCustomError : CustomError :=
  {| code := 0%Z; Message := ""; Trace := ""; PreviousTraces := []; Err := ENil |}.

Abbreviation heap := (gmap loc CustomError).

(** ** Computations over the heap that may panic *)

Inductive result (A : Type) : Type :=
  | Ok (a : A) : result A
  | Panic : result A.
Arguments Ok {A} a.
Arguments Panic {A}.

Definition M (A : Type) : Type := heap -> result (A * heap).

Definition ret {A} (a : A) : M A := fun h => Ok (a, h).

Definition bind {A B} (m : M A) (k : A -> M B) : M B :=
  fun h => match m h with
           | Ok (a, h') => k a h'
           | Panic => Panic
           end.

Notation "x <- m ;; k" := (bind m (fun x => k))
  (at level 100, m at next level, right associativity).
Notation "m ;;; k" := (bind m (fun _ => k))
  (at level 100, right associativity).

(** Reading through a pointer; a nil pointer dereference panics. *)
Definition deref (p : option loc) : M CustomError :=
  fun h => match p with
           | Some a => match h !! a with
                       | Some e => Ok (e, h)
                       | None => Panic
                       end
           | None => Panic
           end.

(** Assigning the fields of the object a pointer refers to. *)
Definition update (p : option loc) (f : CustomError -> CustomError) : M unit :=
  fun h => match p with
           | Some a => match h !! a with
                       | Some e => Ok (tt, <[a := f e]> h)
                       | None => Panic
                       end
           | None => Panic
           end.

(** Allocation of a new object at an unused address. *)
Definition alloc (e : CustomError) : M (option loc) :=
  fun h => let a := fresh (dom h) in Ok (Some a, <[a := e]> h).

(** ** Functional options *)

(** [type CustomErrorOption func(e)], [e] a pointer to a [CustomError] *)
Definition CustomErrorOption := option loc -> M unit.

Definition set_code (c : ErrorCode) (e : CustomError) : CustomError :=
  mkCustomError c (Message e) (Trace e) (PreviousTraces e) (Err e).
Definition set_Message (m : string) (e : CustomError) : CustomError :=
  mkCustomError (code e) m (Trace e) (PreviousTraces e) (Err e).
Definition set_Trace (t : string) (e : CustomError) : CustomError :=
  mkCustomError (code e) (Message e) t (PreviousTraces e) (Err e).
Definition set_PreviousTraces (ts : list string) (e : CustomError) : CustomError :=
  mkCustomError (code e) (Message e) (Trace e) ts (Err e).
Definition set_Err (c : error) (e : CustomError) : CustomError :=
  mkCustomError (code e) (Message e) (Trace e) (PreviousTraces e) c.

Definition WithCode (c : ErrorCode) : CustomErrorOption :=
  fun e => update e (set_code c).
Definition WithMessage (msg : string) : CustomErrorOption :=
  fun e => update e (set_Message msg).
Definition WithTrace (trace : string) : CustomErrorOption :=
  fun e => update e (set_Trace trace).
Definition WithPreviousTraces (traces : list string) : CustomErrorOption :=
  fun e => update e (set_PreviousTraces traces).
Definition WithCause (err : error) : CustomErrorOption :=
  fun e => update e (set_Err err).

(** [for _, opt := range opts { opt(e) }] *)
Fixpoint apply_opts (opts : list CustomErrorOption) (e : option loc) : M unit :=
  match opts with
  | [] => ret tt
  | opt :: rest => opt e ;;; apply_opts rest e
  end.

(** ** Methods with a pointer receiver *)

Definition Error (e : option loc) : M string :=
  s <- deref e ;;
  if String.eqb (Message s) "" then ret "unknown error" else ret (Message s).

Definition Cause_method (e : option loc) : M error :=
  s <- deref e ;; ret (Err s).

Definition Code (e : option loc) : M ErrorCode :=
  s <- deref e ;; ret (code s).

Definition Unwrap_method (e : option loc) : M error :=
  s <- deref e ;; ret (Err s).

Definition Is (e : option loc) (target : error) : M bool :=
  match target with
  | ECustom t =>
      se <- deref e ;;
      st <- deref t ;;
      ret (Z.eqb (code se) (code st))
  | _ => ret false
  end.

(** [strings.Join(elems, sep)] *)
Fixpoint Join (elems : list string) (sep : string) : string :=
  match elems with
  | [] => ""
  | [x] => x
  | x :: rest => x ++ sep ++ Join rest sep
  end.

Definition newline : string := String (Ascii.ascii_of_nat 10) "".

Definition PrintTrace (e : option loc) : M string :=
  s <- deref e ;;
  if String.eqb (Trace s) "" then ret ""
  else
    let allTraces := ([Trace s] ++ PreviousTraces s)%list in
    ret (Join allTraces newline).

(** ** Construction *)

Definition newCustomError (opts : list CustomErrorOption) : M (option loc) :=
  e <- alloc zeroCustomError ;;
  apply_opts opts e ;;;
  ret e.

Definition New (msg : string) (c : ErrorCode) : M (option loc) :=
  newCustomError [WithMessage msg; WithCode c].

(** ** Capturing the call site *)

(** [runtime.Frame], restricted to the fields that are printed. *)
Record Frame : Type := mkFrame {
  File : string;
  Line : Z;
  Function : string
}.

(** [runtime.Callers(skip, pcs)] for a buffer of [cap] entries: the frames of
    the calling goroutine's stack [stack] (the frame of [runtime.Callers]
    itself first), without the first [skip]. *)
Definition runtime_Callers (skip cap : nat) (stack : list Frame) : list Frame :=
  take cap (drop skip stack).

(** [fmt.Sprintf("%s:%d %s", file, line, function)] *)
Definition Sprintf_trace (file : string) (line : Z) (function : string) : string :=
  file ++ ":" ++ pretty line ++ " " ++ function.

Definition captureStackTrace (stack : list Frame) : string :=
  let pcs := runtime_Callers 3 1 stack in
  match pcs with
  | [] => "unknown"
  | frame :: _ => Sprintf_trace (File frame) (Line frame) (Function frame)
  end.

(** ** Wrapping *)

Definition wrapError (stack : list Frame) (err : error)
    (opts : list CustomErrorOption) : M error :=
  let trace := captureStackTrace stack in
  match err with
  | ECustom customErr =>
      s <- deref customErr ;;
      let previousTraces := ([Trace s] ++ PreviousTraces s)%list in
      update customErr (set_Trace trace) ;;;
      update customErr (set_PreviousTraces previousTraces) ;;;
      apply_opts opts customErr ;;;
      ret (ECustom customErr)
  | _ =>
      let previousTraces : list string := [] in
      let allOpts :=
        ([WithTrace trace; WithPreviousTraces previousTraces; WithCause err] ++ opts)%list in
      e <- newCustomError allOpts ;;
      ret (ECustom e)
  end.

Definition WrapTrace (stack : list Frame) (err : error) : M error :=
  wrapError stack err [WithMessage "An error occurred"].

Definition WrapMessageWithCode (stack : list Frame) (err : error)
    (errCode : ErrorCode) (msg : string) : M error :=
  wrapError stack err [WithMessage msg; WithCode errCode].

Definition WrapMessage (stack : list Frame) (err : error) (msg : string) : M error :=
  wrapError stack err [WithMessage msg; WithCode ErrorInternalServer].

(** ** Free functions *)

(** The outcome of a recursive walk: a value, a panic, or no answer within
    the given number of nested calls. *)
Inductive walk (A : Type) : Type :=
  | Done (a : A) : walk A
  | Crash : walk A
  | OutOfFuel : walk A.
Arguments Done {A} a.
Arguments Crash {A}.
Arguments OutOfFuel {A}.

(** [Cause(err)]: the recursion of the source, bounded by [fuel] nested
    calls.  The heap is only read. *)
Fixpoint Cause (fuel : nat) (err : error) (h : heap) : walk error :=
  match fuel with
  | O => OutOfFuel
  | S fuel' =>
      match err with
      | ECustom customErr =>
          match Cause_method customErr h with
          | Ok (c, _) =>
              if decide (c = ENil) then Done err else Cause fuel' c h
          | Panic => Crash
          end
      | _ => Done err
      end
  end.

Definition Unwrap (err : error) : M error :=
  match err with
  | ECustom (Some a) => Cause_method (Some a)
  | _ => ret err
  end.

Definition Trace_of (err : error) : M string :=
  match err with
  | ECustom customErr => PrintTrace customErr
  | _ => ret ""
  end.

Definition IsCustomError (err : error) : bool :=
  match err with
  | ECustom _ => true
  | _ => false
  end.

(** * Vocabulary of the properties

    The public wrap entry points pass only [WithMessage] and [WithCode]
    options.  [override] names those two, [option_of] gives the option the
    source builds for each, and [overridden] is their combined effect on the
    fields of one object. *)

Inductive override : Type :=
  | OMessage (msg : string) : override
  | OCode (c : ErrorCode) : override.

Definition option_of (o : override) : CustomErrorOption :=
  match o with
  | OMessage msg => WithMessage msg
  | OCode c => WithCode c
  end.

Definition override_field (o : override) : CustomError -> CustomError :=
  match o with
  | OMessage msg => set_Message msg
  | OCode c => set_code c
  end.

Fixpoint overridden (ovs : list override) (e : CustomError) : CustomError :=
  match ovs with
  | [] => e
  | o :: rest => overridden rest (override_field o e)
  end.

(** The message left by a sequence of overrides: the last one supplied, or
    the previous message. *)
Fixpoint final_message (ovs : list override) (old : string) : string :=
  match ovs with
  | [] => old
  | OMessage msg :: rest => final_message rest msg
  | OCode _ :: rest => final_message rest old
  end.

Fixpoint final_code (ovs : list override) (old : ErrorCode) : ErrorCode :=
  match ovs with
  | [] => old
  | OMessage _ :: rest => final_code rest old
  | OCode c :: rest => final_code rest c
  end.

Definition is_message (o : override) : bool :=
  match o with OMessage _ => true | OCode _ => false end.
Definition is_code (o : override) : bool :=
  match o with OMessage _ => false | OCode _ => true end.

(** The three public entry points are [wrapError] with message and code
    overrides only. *)
Inductive wrap_call : Type :=
  | CallWrapTrace : wrap_call
  | CallWrapMessage (msg : string) : wrap_call
  | CallWrapMessageWithCode (errCode : ErrorCode) (msg : string) : wrap_call.

Definition run_wrap (w : wrap_call) (stack : list Frame) (err : error) : M error :=
  match w with
  | CallWrapTrace => WrapTrace stack err
  | CallWrapMessage msg => WrapMessage stack err msg
  | CallWrapMessageWithCode errCode msg => WrapMessageWithCode stack err errCode msg
  end.

Definition overrides_of (w : wrap_call) : list override :=
  match w with
  | CallWrapTrace => [OMessage "An error occurred"]
  | CallWrapMessage msg => [OMessage msg; OCode ErrorInternalServer]
  | CallWrapMessageWithCode errCode msg => [OMessage msg; OCode errCode]
  end.

(** An error value a caller can hold: the nil interface, a foreign error, or
    a pointer to an allocated CustomError. *)
Definition live (h : heap) (err : error) : bool :=
  match err with
  | ECustom (Some a) => match h !! a with Some _ => true | None => false end
  | ECustom None => false
  | _ => true
  end.

(** A sequence of wrap calls, each applied to the result of the previous
    one. *)
Fixpoint wrap_all (calls : list (wrap_call * list Frame)) (err : error) : M error :=
  match calls with
  | [] => ret err
  | (w, stack) :: rest => e <- run_wrap w stack err ;; wrap_all rest e
  end.

(** The traces of an object, most recent first. *)
Definition history (e : CustomError) : list string := Trace e :: PreviousTraces e.

(** One link of the cause chain: [x] is an allocated CustomError whose
    cause [y] is present. *)
Definition cause_link (h : heap) (x y : error) : Prop :=
  exists (a : loc) (e : CustomError),
    x = ECustom (Some a) /\ h !! a = Some e /\ Err e = y /\ y <> ENil.

(** The end of a chain: an error that is not a CustomError, or a CustomError
    without a cause. *)
Definition terminal (h : heap) (t : error) : Prop :=
  match t with
  | ECustom p => exists (a : loc) (e : CustomError),
                   p = Some a /\ h !! a = Some e /\ Err e = ENil
  | _ => True
  end.

(** Two nested CustomErrors over a plain error. *)
Definition nested_heap : heap :=
  {[ 1%positive := mkCustomError 500%Z "outer" "a.go:3 f" [] (ECustom (Some 2%positive));
     2%positive := mkCustomError 404%Z "inner" "b.go:9 g" [] (EPlain 5 "v is 0") ]}.

Definition is_newline (c : Ascii.ascii) : bool := Ascii.eqb c (Ascii.ascii_of_nat 10).

(** The lines of a text: its pieces between newline characters, as
    [strings.Split(s, "\n")] gives them. *)
Fixpoint Split_lines (s : string) : list string :=
  match s with
  | EmptyString => [""]
  | String c rest =>
      if is_newline c then "" :: Split_lines rest
      else match Split_lines rest with
           | [] => [String c ""]
           | x :: xs => String c x :: xs
           end
  end.

(** A text without newline character. *)
Fixpoint single_line (s : string) : bool :=
  match s with
  | EmptyString => true
  | String c rest => negb (is_newline c) && single_line rest
  end.

(** A frame whose file and function names contain no newline, and a stack
    whose frame picked by [captureStackTrace] is such a frame. *)
Definition frame_single_line (f : Frame) : bool :=
  single_line (File f) && single_line (Function f).

Definition stack_single_line (stack : list Frame) : bool :=
  match drop 3 stack with
  | [] => true
  | f :: _ => frame_single_line f
  end.

(** ** The five options, by name

    [option_desc] names each option constructor of the source with its
    argument; [denote_option] is the option the source builds for it and
    [set_field] the assignment that option performs. *)
Inductive option_desc : Type :=
  | DCode (c : ErrorCode) : option_desc
  | DMessage (msg : string) : option_desc
  | DTrace (trace : string) : option_desc
  | DPreviousTraces (traces : list string) : option_desc
  | DCause (err : error) : option_desc.

Definition denote_option (d : option_desc) : CustomErrorOption :=
  match d with
  | DCode c => WithCode c
  | DMessage msg => WithMessage msg
  | DTrace trace => WithTrace trace
  | DPreviousTraces traces => WithPreviousTraces traces
  | DCause err => WithCause err
  end.

Definition set_field (d : option_desc) : CustomError -> CustomError :=
  match d with
  | DCode c => set_code c
  | DMessage msg => set_Message msg
  | DTrace trace => set_Trace trace
  | DPreviousTraces traces => set_PreviousTraces traces
  | DCause err => set_Err err
  end.

Fixpoint set_fields (ds : list option_desc) (e : CustomError) : CustomError :=
  match ds with
  | [] => e
  | d :: rest => set_fields rest (set_field d e)
  end.

(** The arguments given for one field, in the order of the options. *)
Definition codes_of (ds : list option_desc) : list ErrorCode :=
  omap (fun d => match d with DCode c => Some c | _ => None end) ds.
Definition messages_of (ds : list option_desc) : list string :=
  omap (fun d => match d with DMessage m => Some m | _ => None end) ds.
Definition traces_of (ds : list option_desc) : list string :=
  omap (fun d => match d with DTrace t => Some t | _ => None end) ds.
Definition previous_of (ds : list option_desc) : list (list string) :=
  omap (fun d => match d with DPreviousTraces ts => Some ts | _ => None end) ds.
Definition causes_of (ds : list option_desc) : list error :=
  omap (fun d => match d with DCause c => Some c | _ => None end) ds.

(** The field an option assigns, numbered in the order of the struct. *)
Definition field_of (d : option_desc) : nat :=
  match d with
  | DCode _ => 0
  | DMessage _ => 1
  | DTrace _ => 2
  | DPreviousTraces _ => 3
  | DCause _ => 4
  end.

(** ** The example program (example/main.go)

    [errors.New(text)] returns a new error value that is not a CustomError;
    [id] is its identity.  The stack seen by [runtime.Callers] at each wrap
    call is an input of the function that makes the call. *)
Definition errors_New (id : positive) (text : string) : error := EPlain id text.

Definition checker (stack : list Frame) (id : positive) (v : Z) : M (Z * error) :=
  if Z.eqb v 0 then
    e <- WrapMessage stack (errors_New id "v is 0") "v is 0" ;;
    ret (0%Z, e)
  else ret (v, ENil).

Definition converter (stack_checker stack_converter : list Frame)
    (id : positive) (v : Z) : M (Z * error) :=
  r <- checker stack_checker id v ;;
  let err := snd r in
  if decide (err <> ENil) then
    e <- WrapMessage stack_converter err "converter - v is 0" ;;
    ret (0%Z, e)
  else ret (0%Z, ENil).

(** [main]: the texts written to standard output, [fmt.Println] adding a
    newline to each. *)
Definition main (stack_checker stack_converter : list Frame) (id : positive)
    : M (list string) :=
  r <- converter stack_checker stack_converter id 0 ;;
  match snd r with
  | ECustom customErr =>
      s <- PrintTrace customErr ;;
      ret [s ++ newline]
  | _ => ret []
  end.

(** The character of code 58, the colon. *)
Definition colon : Ascii.ascii := Ascii.ascii_of_nat 58.

(** Whether a text contains the character [c]. *)
Fixpoint has_char (c : Ascii.ascii) (s : string) : bool :=
  match s with
  | EmptyString => false
  | String c' rest => Ascii.eqb c c' || has_char c rest
  end.

(** ** Heaps built through New and the wrap entry points *)

Inductive api_heap : heap -> Prop :=
  | api_empty : api_heap ∅
  | api_New (h h' : heap) (msg : string) (c : ErrorCode) (p : option loc) :
      api_heap h -> New msg c h = Ok (p, h') -> api_heap h'
  | api_wrap (h h' : heap) (w : wrap_call) (stack : list Frame) (err r : error) :
      api_heap h -> run_wrap w stack err h = Ok (r, h') -> api_heap h'.

(** No object has a CustomError as its cause. *)
Definition flat (h : heap) : Prop :=
  forall (a : loc) (e : CustomError), h !! a = Some e -> IsCustomError (Err e) = false.

(** * Properties *)

(** ** Basic facts about heap access *)

Lemma deref_live (a : loc) (e : CustomError) (h : heap) :
  h !! a = Some e -> deref (Some a) h = Ok (e, h).
Proof. intros Ha. unfold deref. by rewrite Ha. Qed.

Lemma update_live (a : loc) (e : CustomError) (f : CustomError -> CustomError) (h : heap) :
  h !! a = Some e -> update (Some a) f h = Ok (tt, <[a := f e]> h).
Proof. intros Ha. unfold update. by rewrite Ha. Qed.

Lemma fresh_unused (h : heap) : h !! fresh (dom h) = None.
Proof. apply not_elem_of_dom. apply is_fresh. Qed.

Lemma overridden_fields (ovs : list override) (e : CustomError) :
  overridden ovs e =
    mkCustomError (final_code ovs (code e)) (final_message ovs (Message e))
                  (Trace e) (PreviousTraces e) (Err e).
Proof.
  revert e. induction ovs as [|o ovs IH]; intros e.
  - by destruct e.
  - simpl. rewrite IH. by destruct o.
Qed.

Lemma final_message_none (ovs : list override) (old : string) :
  forallb (fun o => negb (is_message o)) ovs = true -> final_message ovs old = old.
Proof.
  induction ovs as [|[m|c] ovs IH]; simpl; intros H; try done.
  by apply IH.
Qed.

Lemma final_code_none (ovs : list override) (old : ErrorCode) :
  forallb (fun o => negb (is_code o)) ovs = true -> final_code ovs old = old.
Proof.
  induction ovs as [|[m|c] ovs IH]; simpl; intros H; try done.
  by apply IH.
Qed.

Lemma apply_opts_overrides (ovs : list override) (a : loc) (e : CustomError) (h : heap) :
  h !! a = Some e ->
  apply_opts (map option_of ovs) (Some a) h = Ok (tt, <[a := overridden ovs e]> h).
Proof.
  revert e h. induction ovs as [|o ovs IH]; intros e h Ha; simpl.
  - unfold ret. by rewrite insert_id.
  - unfold bind.
    assert (option_of o (Some a) h = Ok (tt, <[a := override_field o e]> h)) as ->.
    { destruct o; simpl; unfold WithMessage, WithCode; by apply update_live. }
    rewrite (IH (override_field o e)) by apply lookup_insert_eq.
    by rewrite insert_insert_eq.
Qed.

(** ** What [wrapError] computes *)

(** On a live [CustomError]: the object is updated in place. *)
Lemma wrapError_custom (stack : list Frame) (ovs : list override)
    (a : loc) (e : CustomError) (h : heap) :
  h !! a = Some e ->
  wrapError stack (ECustom (Some a)) (map option_of ovs) h =
    Ok (ECustom (Some a),
        <[a := overridden ovs
                 (mkCustomError (code e) (Message e) (captureStackTrace stack)
                                (Trace e :: PreviousTraces e) (Err e))]> h).
Proof.
  intros Ha. unfold wrapError, bind.
  rewrite (deref_live a e h Ha).
  rewrite (update_live a e _ h Ha).
  erewrite update_live by apply lookup_insert_eq.
  erewrite apply_opts_overrides by apply lookup_insert_eq.
  unfold ret. by rewrite !insert_insert_eq.
Qed.

(** On anything else: a new object is allocated. *)
Lemma wrapError_fresh (stack : list Frame) (ovs : list override)
    (err : error) (h : heap) :
  IsCustomError err = false ->
  wrapError stack err (map option_of ovs) h =
    Ok (ECustom (Some (fresh (dom h))),
        <[fresh (dom h) := overridden ovs
             (mkCustomError 0%Z "" (captureStackTrace stack) [] err)]> h).
Proof.
  intros Hn.
  assert (wrapError stack err (map option_of ovs) =
          (e <- newCustomError
                  ([WithTrace (captureStackTrace stack); WithPreviousTraces [];
                    WithCause err] ++ map option_of ovs)%list ;;
           ret (ECustom e))) as ->.
  { by destruct err. }
  unfold newCustomError, bind, alloc. simpl. unfold bind.
  unfold WithTrace, WithPreviousTraces, WithCause.
  erewrite update_live by apply lookup_insert_eq.
  erewrite update_live by apply lookup_insert_eq.
  erewrite update_live by apply lookup_insert_eq.
  erewrite apply_opts_overrides by apply lookup_insert_eq.
  unfold ret. by rewrite !insert_insert_eq.
Qed.

Lemma run_wrap_wrapError (w : wrap_call) (stack : list Frame) (err : error) :
  run_wrap w stack err = wrapError stack err (map option_of (overrides_of w)).
Proof. by destruct w. Qed.

Lemma run_wrap_custom (w : wrap_call) (stack : list Frame)
    (a : loc) (e : CustomError) (h : heap) :
  h !! a = Some e ->
  run_wrap w stack (ECustom (Some a)) h =
    Ok (ECustom (Some a),
        <[a := mkCustomError (final_code (overrides_of w) (code e))
                             (final_message (overrides_of w) (Message e))
                             (captureStackTrace stack)
                             (Trace e :: PreviousTraces e) (Err e)]> h).
Proof.
  intros Ha. rewrite run_wrap_wrapError, (wrapError_custom _ _ _ _ _ Ha).
  by rewrite overridden_fields.
Qed.

Lemma run_wrap_fresh (w : wrap_call) (stack : list Frame) (err : error) (h : heap) :
  IsCustomError err = false ->
  run_wrap w stack err h =
    Ok (ECustom (Some (fresh (dom h))),
        <[fresh (dom h) := mkCustomError (final_code (overrides_of w) 0%Z)
                             (final_message (overrides_of w) "")
                             (captureStackTrace stack) [] err]> h).
Proof.
  intros Hn. rewrite run_wrap_wrapError, (wrapError_fresh _ _ _ _ Hn).
  by rewrite overridden_fields.
Qed.

(** ** The captured trace *)

Lemma captureStackTrace_unknown (stack : list Frame) :
  drop 3 stack = [] -> captureStackTrace stack = "unknown".
Proof. intros H. unfold captureStackTrace, runtime_Callers. by rewrite H. Qed.

Lemma captureStackTrace_frame (stack : list Frame) (f : Frame) (rest : list Frame) :
  drop 3 stack = f :: rest ->
  captureStackTrace stack = File f ++ ":" ++ pretty (Line f) ++ " " ++ Function f.
Proof. intros H. unfold captureStackTrace, runtime_Callers. by rewrite H. Qed.

Lemma Sprintf_trace_nonempty (file : string) (line : Z) (function : string) :
  Sprintf_trace file line function <> "".
Proof. unfold Sprintf_trace. destruct file; simpl; discriminate. Qed.

Lemma captureStackTrace_nonempty (stack : list Frame) :
  captureStackTrace stack <> "".
Proof.
  unfold captureStackTrace, runtime_Callers.
  destruct (drop 3 stack) as [|f rest]; simpl.
  - discriminate.
  - apply Sprintf_trace_nonempty.
Qed.

(** ** Re-wrapping an existing CustomError *)

(** C2: wrapping an error that already is a CustomError sets its Trace to
    the newly captured trace and its PreviousTraces to the old Trace followed
    by the old PreviousTraces in their order, and then applies the supplied
    message and code overrides. *)
Theorem wrap_existing_pushes_trace (stack : list Frame) (ovs : list override)
    (a : loc) (e : CustomError) (h : heap) :
  h !! a = Some e ->
  exists (h' : heap) (e' : CustomError),
    wrapError stack (ECustom (Some a)) (map option_of ovs) h
      = Ok (ECustom (Some a), h') /\
    h' !! a = Some e' /\
    Trace e' = captureStackTrace stack /\
    PreviousTraces e' = Trace e :: PreviousTraces e /\
    Message e' = final_message ovs (Message e) /\
    code e' = final_code ovs (code e).
Proof.
  intros Ha. eexists _, _. split; [by apply wrapError_custom|].
  rewrite lookup_insert_eq, overridden_fields. by simpl.
Qed.

Lemma wrap_existing_pushes_trace_witness :
  exists (h' : heap) (e' : CustomError),
    WrapMessage [] (ECustom (Some 1%positive)) "again"
      {[ 1%positive := mkCustomError 404%Z "first" "a.go:1 f" ["b.go:2 g"] ENil ]}
      = Ok (ECustom (Some 1%positive), h') /\
    h' !! 1%positive = Some e' /\
    Trace e' = "unknown" /\
    PreviousTraces e' = ["a.go:1 f"; "b.go:2 g"] /\
    Message e' = "again" /\
    code e' = 500%Z.
Proof.
  apply (wrap_existing_pushes_trace []
           [OMessage "again"; OCode ErrorInternalServer] 1%positive
           (mkCustomError 404%Z "first" "a.go:1 f" ["b.go:2 g"] ENil)).
  reflexivity.
Defined.

(** C3: wrapping an error that already is a CustomError returns the very
    same reference, allocates nothing, leaves every other object alone and
    leaves the cause untouched; the message and the code change only when an
    override for them is supplied. *)
Theorem wrap_existing_in_place (stack : list Frame) (ovs : list override)
    (a : loc) (e : CustomError) (h : heap) :
  h !! a = Some e ->
  exists (h' : heap) (e' : CustomError),
    wrapError stack (ECustom (Some a)) (map option_of ovs) h
      = Ok (ECustom (Some a), h') /\
    h' !! a = Some e' /\
    Err e' = Err e /\
    dom h' = dom h /\
    (forall b : loc, b <> a -> h' !! b = h !! b) /\
    (forallb (fun o => negb (is_message o)) ovs = true -> Message e' = Message e) /\
    (forallb (fun o => negb (is_code o)) ovs = true -> code e' = code e).
Proof.
  intros Ha. eexists _, _. split; [by apply wrapError_custom|].
  rewrite lookup_insert_eq, overridden_fields. simpl.
  split; [done|]. split; [done|]. split.
  { apply dom_insert_lookup_L. by exists e. }
  split.
  { intros b Hb. by rewrite lookup_insert_ne. }
  split; [apply final_message_none | apply final_code_none].
Qed.

Lemma wrap_existing_in_place_witness :
  exists (h' : heap) (e' : CustomError),
    WrapTrace [] (ECustom (Some 1%positive))
      {[ 1%positive := mkCustomError 404%Z "first" "a.go:1 f" [] (EPlain 7 "boom") ]}
      = Ok (ECustom (Some 1%positive), h') /\
    h' !! 1%positive = Some e' /\
    Err e' = EPlain 7 "boom" /\
    code e' = 404%Z.
Proof.
  assert (({[ 1%positive :=
               mkCustomError 404%Z "first" "a.go:1 f" [] (EPlain 7 "boom") ]} : heap)
            !! 1%positive
          = Some (mkCustomError 404%Z "first" "a.go:1 f" [] (EPlain 7 "boom")))
    as Hlive by reflexivity.
  destruct (wrap_existing_in_place [] [OMessage "An error occurred"] _ _ _ Hlive)
    as (h' & e' & Hrun & Hlook & Herr & _ & _ & _ & Hcode).
  exists h', e'. split; [exact Hrun|]. split; [exact Hlook|].
  split; [exact Herr|]. apply Hcode. reflexivity.
Defined.

(** ** Wrapping an error that is not a CustomError *)

(** C4, as the source has it: wrapping an error that is not a CustomError
    allocates a new CustomError whose Trace is the newly captured trace,
    whose PreviousTraces is empty and whose cause is the wrapped error.  The
    message and code are those supplied; a code that is not supplied stays at
    the zero value of the new object, so that WrapTrace yields code 0 and the
    message An error occurred, while WrapMessage supplies 500 itself. *)
Theorem wrap_plain_creates (stack : list Frame) (ovs : list override)
    (err : error) (h : heap) :
  IsCustomError err = false ->
  exists (a : loc) (h' : heap) (e' : CustomError),
    wrapError stack err (map option_of ovs) h = Ok (ECustom (Some a), h') /\
    h !! a = None /\
    h' !! a = Some e' /\
    (forall b : loc, b <> a -> h' !! b = h !! b) /\
    Trace e' = captureStackTrace stack /\
    PreviousTraces e' = [] /\
    Err e' = err /\
    Message e' = final_message ovs "" /\
    code e' = final_code ovs 0%Z /\
    (forallb (fun o => negb (is_code o)) ovs = true -> code e' = 0%Z) /\
    (WrapTrace stack err h = Ok (ECustom (Some a), <[a :=
        mkCustomError 0%Z "An error occurred" (captureStackTrace stack) [] err]> h)).
Proof.
  intros Hn. eexists _, _, _. split; [by apply wrapError_fresh|].
  split; [apply fresh_unused|].
  rewrite lookup_insert_eq, overridden_fields. simpl.
  split; [done|]. split.
  { intros b Hb. by rewrite lookup_insert_ne. }
  repeat (split; [done|]). split.
  { apply final_code_none. }
  exact (wrapError_fresh stack [OMessage "An error occurred"] err h Hn).
Qed.

Lemma wrap_plain_creates_witness :
  exists (a : loc) (h' : heap) (e' : CustomError),
    WrapTrace [] (EPlain 1 "v is 0") ∅ = Ok (ECustom (Some a), h') /\
    h' !! a = Some e' /\
    Err e' = EPlain 1 "v is 0" /\
    code e' = 0%Z.
Proof.
  destruct (wrap_plain_creates [] [OMessage "An error occurred"]
              (EPlain 1 "v is 0") ∅ eq_refl)
    as (a & h' & e' & Hrun & _ & Hlook & _ & _ & _ & Herr & _ & _ & Hcode & _).
  exists a, h', e'. split; [exact Hrun|]. split; [exact Hlook|].
  split; [exact Herr|]. apply Hcode. reflexivity.
Defined.

(** C4 as stated fails: WrapTrace on a plain error does not give the new
    CustomError the code 500. *)
Lemma wrap_plain_code_not_internal :
  ~ (exists (a : loc) (h' : heap) (e' : CustomError),
       WrapTrace [] (EPlain 1 "v is 0") ∅ = Ok (ECustom (Some a), h') /\
       h' !! a = Some e' /\
       code e' = ErrorInternalServer).
Proof.
  intros (a & h' & e' & Hrun & Hlook & Hcode).
  pose proof (wrapError_fresh [] [OMessage "An error occurred"]
                (EPlain 1 "v is 0") ∅ eq_refl) as Hfresh.
  change (wrapError [] (EPlain 1 "v is 0") (map option_of [OMessage "An error occurred"]))
    with (WrapTrace [] (EPlain 1 "v is 0")) in Hfresh.
  rewrite Hfresh in Hrun. injection Hrun as <- <-.
  rewrite lookup_insert_eq in Hlook. injection Hlook as <-.
  discriminate Hcode.
Qed.

(** ** Wrapping nil *)

(** C10: each of WrapTrace, WrapMessage and WrapMessageWithCode applied to
    the nil error returns, without panicking, a reference to a newly
    allocated CustomError that has no cause, the supplied message and code
    (code 0 for WrapTrace, which supplies none) and the captured trace. *)
Theorem wrap_nil_creates (stack : list Frame) (h : heap) (msg : string) (c : ErrorCode) :
  let a := fresh (dom h) in
  h !! a = None /\
  WrapTrace stack ENil h =
    Ok (ECustom (Some a),
        <[a := mkCustomError 0%Z "An error occurred" (captureStackTrace stack) [] ENil]> h) /\
  WrapMessage stack ENil msg h =
    Ok (ECustom (Some a),
        <[a := mkCustomError ErrorInternalServer msg (captureStackTrace stack) [] ENil]> h) /\
  WrapMessageWithCode stack ENil c msg h =
    Ok (ECustom (Some a),
        <[a := mkCustomError c msg (captureStackTrace stack) [] ENil]> h).
Proof.
  intros a. split; [apply fresh_unused|].
  split; [|split].
  - exact (wrapError_fresh stack [OMessage "An error occurred"] ENil h eq_refl).
  - exact (wrapError_fresh stack [OMessage msg; OCode ErrorInternalServer] ENil h eq_refl).
  - exact (wrapError_fresh stack [OMessage msg; OCode c] ENil h eq_refl).
Qed.

(** ** Every wrap records a location *)

(** C9: every wrap entry point returns a CustomError whose Trace is not
    empty: it is the text file:line function of the resolved frame, and the
    literal unknown when runtime.Callers resolves no frame. *)
Theorem wrap_trace_nonempty (w : wrap_call) (stack : list Frame)
    (err : error) (h : heap) :
  live h err = true ->
  exists (a : loc) (h' : heap) (e' : CustomError),
    run_wrap w stack err h = Ok (ECustom (Some a), h') /\
    h' !! a = Some e' /\
    Trace e' = captureStackTrace stack /\
    Trace e' <> "" /\
    (drop 3 stack = [] -> Trace e' = "unknown") /\
    (forall (f : Frame) (rest : list Frame), drop 3 stack = f :: rest ->
       Trace e' = File f ++ ":" ++ pretty (Line f) ++ " " ++ Function f).
Proof.
  intros Hlive.
  assert (exists (a : loc) (h' : heap) (e' : CustomError),
            run_wrap w stack err h = Ok (ECustom (Some a), h') /\
            h' !! a = Some e' /\ Trace e' = captureStackTrace stack)
    as (a & h' & e' & Hrun & Hlook & Htrace).
  { destruct err as [|id msg|[a|]]; simpl in Hlive; try discriminate.
    - eexists _, _, _. split; [by apply run_wrap_fresh|].
      by rewrite lookup_insert_eq.
    - eexists _, _, _. split; [by apply run_wrap_fresh|].
      by rewrite lookup_insert_eq.
    - destruct (h !! a) as [e|] eqn:Ha; [|discriminate].
      eexists _, _, _. split; [by apply run_wrap_custom|].
      by rewrite lookup_insert_eq. }
  exists a, h', e'. rewrite Htrace.
  split; [done|]. split; [done|]. split; [done|].
  split; [apply captureStackTrace_nonempty|].
  split; [apply captureStackTrace_unknown | apply captureStackTrace_frame].
Qed.

Lemma wrap_trace_nonempty_witness :
  exists (a : loc) (h' : heap) (e' : CustomError),
    WrapMessage
      [mkFrame "runtime/extern.go" 331 "runtime.Callers";
       mkFrame "exception.go" 125 "exception.captureStackTrace";
       mkFrame "exception.go" 95 "exception.wrapError";
       mkFrame "exception.go" 120 "exception.WrapMessage";
       mkFrame "main.go" 27 "main.checker"]
      (EPlain 1 "v is 0") "v is 0" ∅ = Ok (ECustom (Some a), h') /\
    h' !! a = Some e' /\
    Trace e' = "exception.go:120 exception.WrapMessage".
Proof.
  destruct (wrap_trace_nonempty (CallWrapMessage "v is 0")
              [mkFrame "runtime/extern.go" 331 "runtime.Callers";
               mkFrame "exception.go" 125 "exception.captureStackTrace";
               mkFrame "exception.go" 95 "exception.wrapError";
               mkFrame "exception.go" 120 "exception.WrapMessage";
               mkFrame "main.go" 27 "main.checker"]
              (EPlain 1 "v is 0") ∅ eq_refl)
    as (a & h' & e' & Hrun & Hlook & _ & _ & _ & Hframe).
  exists a, h', e'. split; [exact Hrun|]. split; [exact Hlook|].
  apply (Hframe (mkFrame "exception.go" 120 "exception.WrapMessage")
                [mkFrame "main.go" 27 "main.checker"]).
  reflexivity.
Defined.

(** ** Repeated wrapping *)

Lemma wrap_all_custom (calls : list (wrap_call * list Frame))
    (a : loc) (e : CustomError) (h : heap) :
  h !! a = Some e ->
  exists (h' : heap) (e' : CustomError),
    wrap_all calls (ECustom (Some a)) h = Ok (ECustom (Some a), h') /\
    h' !! a = Some e' /\
    Err e' = Err e /\
    history e' = (rev (map (fun c => captureStackTrace (snd c)) calls) ++ history e)%list.
Proof.
  revert e h. induction calls as [|[w stack] calls IH]; intros e h Ha.
  - exists h, e. by simpl.
  - simpl. unfold bind. rewrite (run_wrap_custom w stack a e h Ha).
    edestruct IH as (h' & e' & Hrun & Hlook & Herr & Hhist);
      [apply lookup_insert_eq|].
    exists h', e'. split; [exact Hrun|]. split; [exact Hlook|].
    split; [exact Herr|]. rewrite Hhist. unfold history at 1. simpl.
    by rewrite <- app_assoc.
Qed.

(** After [k + 1] wraps of an error that is not a CustomError, the list of
    previous traces has [k] entries. *)
Lemma wrap_all_plain_length (w : wrap_call) (stack : list Frame)
    (calls : list (wrap_call * list Frame)) (err : error) (h : heap) :
  IsCustomError err = false ->
  exists (a : loc) (h' : heap) (e' : CustomError),
    wrap_all ((w, stack) :: calls) err h = Ok (ECustom (Some a), h') /\
    h' !! a = Some e' /\
    Err e' = err /\
    length (PreviousTraces e') = length calls.
Proof.
  intros Hn. simpl. unfold bind. rewrite (run_wrap_fresh w stack err h Hn).
  edestruct (wrap_all_custom calls) as (h' & e' & Hrun & Hlook & Herr & Hhist);
    [apply lookup_insert_eq|].
  eexists _, h', e'. split; [exact Hrun|]. split; [exact Hlook|].
  split; [exact Herr|].
  apply (f_equal length) in Hhist. unfold history in Hhist. simpl in Hhist.
  rewrite length_app, length_rev, length_map in Hhist. simpl in Hhist. lia.
Qed.

(** C1, as the source has it: a plain error wrapped once, then a second and
    a third time, is one CustomError throughout; its PreviousTraces is empty
    after the first wrap, holds the first trace after the second wrap
    (length 1) and the second trace followed by the first after the third
    wrap (length 2), the most recent trace first, and its Cause() is the
    original plain error after every wrap. *)
Theorem wrap_three_times (w1 w2 w3 : wrap_call) (s1 s2 s3 : list Frame)
    (id : positive) (msg : string) (h : heap) :
  let plain := EPlain id msg in
  exists (a : loc) (h1 h2 h3 : heap) (e1 e2 e3 : CustomError),
    run_wrap w1 s1 plain h = Ok (ECustom (Some a), h1) /\
    run_wrap w2 s2 (ECustom (Some a)) h1 = Ok (ECustom (Some a), h2) /\
    run_wrap w3 s3 (ECustom (Some a)) h2 = Ok (ECustom (Some a), h3) /\
    h1 !! a = Some e1 /\ h2 !! a = Some e2 /\ h3 !! a = Some e3 /\
    Trace e1 = captureStackTrace s1 /\
    PreviousTraces e1 = [] /\
    Trace e2 = captureStackTrace s2 /\
    PreviousTraces e2 = [captureStackTrace s1] /\
    Trace e3 = captureStackTrace s3 /\
    PreviousTraces e3 = [captureStackTrace s2; captureStackTrace s1] /\
    length (PreviousTraces e2) = 1%nat /\
    length (PreviousTraces e3) = 2%nat /\
    Cause_method (Some a) h1 = Ok (plain, h1) /\
    Cause_method (Some a) h2 = Ok (plain, h2) /\
    Cause_method (Some a) h3 = Ok (plain, h3).
Proof.
  intros plain.
  eexists _, _, _, _, _, _, _.
  split; [by apply run_wrap_fresh|].
  split; [apply run_wrap_custom, lookup_insert_eq|].
  split; [apply run_wrap_custom, lookup_insert_eq|].
  split; [apply lookup_insert_eq|].
  split; [apply lookup_insert_eq|].
  split; [apply lookup_insert_eq|].
  simpl. repeat (split; [reflexivity|]).
  unfold Cause_method, bind.
  split; [|split]; by erewrite deref_live by apply lookup_insert_eq.
Qed.

(** C1 as stated fails: after the second wrap of a plain error the list of
    previous traces does not have length 2. *)
Lemma wrap_twice_prior_length_not_two :
  ~ (exists (a : loc) (h1 h2 : heap) (e2 : CustomError),
       WrapTrace [] (EPlain 1 "v is 0") ∅ = Ok (ECustom (Some a), h1) /\
       WrapTrace [] (ECustom (Some a)) h1 = Ok (ECustom (Some a), h2) /\
       h2 !! a = Some e2 /\
       length (PreviousTraces e2) = 2%nat).
Proof.
  intros (a & h1 & h2 & e2 & Hrun1 & Hrun2 & Hlook & Hlen).
  change (WrapTrace [] (EPlain 1 "v is 0")) with
    (run_wrap CallWrapTrace [] (EPlain 1 "v is 0")) in Hrun1.
  change (WrapTrace [] (ECustom (Some a))) with
    (run_wrap CallWrapTrace [] (ECustom (Some a))) in Hrun2.
  rewrite (run_wrap_fresh CallWrapTrace [] (EPlain 1 "v is 0") ∅ eq_refl) in Hrun1.
  injection Hrun1 as <- <-.
  erewrite run_wrap_custom in Hrun2 by apply lookup_insert_eq.
  injection Hrun2 as <-.
  rewrite lookup_insert_eq in Hlook. injection Hlook as <-.
  discriminate Hlen.
Qed.

(** ** Construction and rendering *)

Lemma New_allocates (msg : string) (c : ErrorCode) (h : heap) :
  New msg c h =
    Ok (Some (fresh (dom h)), <[fresh (dom h) := mkCustomError c msg "" [] ENil]> h).
Proof.
  unfold New, newCustomError, bind, alloc.
  change [WithMessage msg; WithCode c] with (map option_of [OMessage msg; OCode c]).
  erewrite apply_opts_overrides by apply lookup_insert_eq.
  unfold ret. by rewrite insert_insert_eq.
Qed.

Lemma Error_live (a : loc) (e : CustomError) (h : heap) :
  h !! a = Some e ->
  Error (Some a) h = Ok (if String.eqb (Message e) "" then "unknown error" else Message e, h).
Proof.
  intros Ha. unfold Error, bind. rewrite (deref_live a e h Ha).
  by destruct (String.eqb (Message e) "").
Qed.

(** C7: for every message m and code c, New(m, c).Error() is m when m is
    not empty and is unknown error when m is empty; and Error() of any
    CustomError is never the empty string. *)
Theorem New_Error (m : string) (c : ErrorCode) (h : heap) :
  exists (p : option loc) (h' : heap),
    New m c h = Ok (p, h') /\
    (m <> "" -> Error p h' = Ok (m, h')) /\
    (m = "" -> Error p h' = Ok ("unknown error", h')) /\
    (forall (q : loc) (e : CustomError) (h0 : heap), h0 !! q = Some e ->
       exists r : string, Error (Some q) h0 = Ok (r, h0) /\ r <> "").
Proof.
  eexists _, _. split; [apply New_allocates|].
  split; [|split].
  - intros Hm. erewrite Error_live by apply lookup_insert_eq. simpl.
    apply String.eqb_neq in Hm. by rewrite Hm.
  - intros ->. by erewrite Error_live by apply lookup_insert_eq.
  - intros q e h0 Hq. eexists. split; [by apply Error_live|].
    destruct (String.eqb (Message e) "") eqn:E; [discriminate|].
    by apply String.eqb_neq in E.
Qed.

Lemma New_Error_witness :
  (exists (p : option loc) (h' : heap),
     New "not found" ErrorNotFound ∅ = Ok (p, h') /\
     Error p h' = Ok ("not found", h')) /\
  (exists (p : option loc) (h' : heap),
     New "" ErrorNotFound ∅ = Ok (p, h') /\
     Error p h' = Ok ("unknown error", h')).
Proof.
  split.
  - destruct (New_Error "not found" ErrorNotFound ∅) as (p & h' & Hnew & Hm & _).
    exists p, h'. split; [exact Hnew|]. apply Hm. discriminate.
  - destruct (New_Error "" ErrorNotFound ∅) as (p & h' & Hnew & _ & Hm & _).
    exists p, h'. split; [exact Hnew|]. apply Hm. reflexivity.
Defined.

(** ** Classification matching *)

(** C8: for a CustomError e, e.Is(target) is true exactly when target is
    a CustomError whose code equals the code of e, whatever the messages and
    causes are; it is false when target is not a CustomError. *)
Theorem Is_matches_code (a : loc) (e : CustomError) (target : error) (h : heap) :
  h !! a = Some e ->
  (Is (Some a) target h = Ok (true, h) <->
     exists (b : loc) (t : CustomError),
       target = ECustom (Some b) /\ h !! b = Some t /\ code t = code e) /\
  (forall (b : loc) (t : CustomError), target = ECustom (Some b) -> h !! b = Some t ->
     Is (Some a) target h = Ok (Z.eqb (code e) (code t), h)) /\
  (IsCustomError target = false -> Is (Some a) target h = Ok (false, h)).
Proof.
  intros Ha.
  assert (forall (b : loc) (t : CustomError), h !! b = Some t ->
            Is (Some a) (ECustom (Some b)) h = Ok (Z.eqb (code e) (code t), h)) as Hcustom.
  { intros b t Hb. unfold Is, bind.
    by rewrite (deref_live a e h Ha), (deref_live b t h Hb). }
  split; [|split].
  - split.
    + destruct target as [|id msg|[b|]]; simpl; try discriminate.
      * unfold bind. rewrite (deref_live a e h Ha). unfold deref.
        destruct (h !! b) as [t|] eqn:Hb; [|discriminate].
        unfold ret. intros H. injection H as H.
        exists b, t. split; [done|]. split; [done|].
        symmetry. by apply Z.eqb_eq.
      * unfold bind. rewrite (deref_live a e h Ha). discriminate.
    + intros (b & t & -> & Hb & Hc). rewrite (Hcustom b t Hb), Hc.
      by rewrite Z.eqb_refl.
  - intros b t -> Hb. by apply Hcustom.
  - by destruct target.
Qed.

Lemma Is_matches_code_witness :
  exists (a b d : option loc) (h : heap),
    (a' <- New "a" 404%Z ;; b' <- New "b" 404%Z ;; d' <- New "b" 403%Z ;;
     ret (a', b', d')) ∅ = Ok ((a, b, d), h) /\
    Is a (ECustom b) h = Ok (true, h) /\
    Is a (ECustom d) h = Ok (false, h) /\
    Is a (EPlain 9 "plain") h = Ok (false, h).
Proof.
  set (ea := mkCustomError 404%Z "a" "" [] ENil).
  set (eb := mkCustomError 404%Z "b" "" [] ENil).
  set (ed := mkCustomError 403%Z "b" "" [] ENil).
  set (h := ({[ 1%positive := ea; 2%positive := eb; 3%positive := ed ]} : heap)).
  assert (h !! 1%positive = Some ea) as Ha by reflexivity.
  destruct (Is_matches_code 1%positive ea (ECustom (Some 2%positive)) h Ha)
    as (Hiff & _ & _).
  destruct (Is_matches_code 1%positive ea (ECustom (Some 3%positive)) h Ha)
    as (_ & Hval & _).
  destruct (Is_matches_code 1%positive ea (EPlain 9 "plain") h Ha)
    as (_ & _ & Hplain).
  exists (Some 1%positive), (Some 2%positive), (Some 3%positive), h.
  split; [vm_compute; reflexivity|].
  split.
  { apply Hiff. exists 2%positive, eb. repeat split; reflexivity. }
  split.
  { apply (Hval 3%positive ed); reflexivity. }
  apply Hplain. reflexivity.
Defined.

(** ** The root cause *)

Lemma Cause_link (h : heap) (x y : error) (fuel : nat) :
  cause_link h x y -> Cause (S fuel) x h = Cause fuel y h.
Proof.
  intros (a & e & -> & Ha & <- & Hne). simpl.
  unfold Cause_method, bind. rewrite (deref_live a e h Ha). unfold ret.
  by destruct (decide (Err e = ENil)).
Qed.

Lemma Cause_terminal (h : heap) (t : error) (fuel : nat) :
  terminal h t -> Cause (S fuel) t h = Done t.
Proof.
  destruct t as [|id msg|p]; simpl; try done.
  intros (a & e & -> & Ha & He).
  unfold Cause_method, bind. rewrite (deref_live a e h Ha). unfold ret.
  by destruct (decide (Err e = ENil)).
Qed.

(** More fuel never changes an answer. *)
Lemma Cause_mono (h : heap) (fuel : nat) :
  forall (err r : error) (fuel' : nat),
    Cause fuel err h = Done r -> (fuel <= fuel')%nat -> Cause fuel' err h = Done r.
Proof.
  induction fuel as [|fuel IH]; intros err r fuel' Hrun Hle; [discriminate|].
  destruct fuel' as [|fuel']; [lia|].
  simpl in *. destruct err as [|id msg|p]; try done.
  destruct (Cause_method p h) as [[c h0]|]; [|discriminate].
  destruct (decide (c = ENil)); [done|].
  apply IH; [done | lia].
Qed.

(** C5: when the cause chain of err is finite, that is when following the
    cause links from err reaches a terminal error t (one that is not a
    CustomError, or a CustomError without cause), the recursion of Cause(err)
    terminates: with enough nested calls it returns t, it never panics, and
    it returns nothing but t. *)
Theorem Cause_returns_terminal (h : heap) (err t : error) :
  rtc (cause_link h) err t ->
  terminal h t ->
  (exists n : nat, forall fuel : nat, (n <= fuel)%nat -> Cause fuel err h = Done t) /\
  (forall (fuel : nat) (r : error), Cause fuel err h = Done r -> r = t) /\
  (forall fuel : nat, Cause fuel err h <> Crash).
Proof.
  intros Hchain Hterm.
  assert (exists n : nat, forall fuel : nat, (n <= fuel)%nat -> Cause fuel err h = Done t)
    as [n Hn].
  { induction Hchain as [x|x y z Hxy Hyz IH].
    - exists 1%nat. intros [|fuel] Hle; [lia|]. by apply Cause_terminal.
    - destruct (IH Hterm) as [n Hn]. exists (S n).
      intros [|fuel] Hle; [lia|].
      rewrite (Cause_link h x y fuel Hxy). apply Hn. lia. }
  split; [by exists n|]. split.
  - intros fuel r Hrun.
    pose proof (Cause_mono h fuel err r (max fuel n) Hrun (Nat.le_max_l _ _)) as H1.
    rewrite (Hn (max fuel n) (Nat.le_max_r _ _)) in H1.
    by injection H1.
  - clear n Hn. intros fuel. revert fuel.
    induction Hchain as [x|x y z Hxy Hyz IH]; intros [|fuel]; try done.
    + by rewrite Cause_terminal.
    + rewrite (Cause_link h x y fuel Hxy). by apply IH.
Qed.

Lemma Cause_returns_terminal_witness :
  exists n : nat, forall fuel : nat, (n <= fuel)%nat ->
    Cause fuel (ECustom (Some 1%positive)) nested_heap = Done (EPlain 5 "v is 0").
Proof.
  apply (Cause_returns_terminal nested_heap (ECustom (Some 1%positive))
           (EPlain 5 "v is 0")).
  - eapply rtc_l.
    { exists 1%positive, (mkCustomError 500%Z "outer" "a.go:3 f" [] (ECustom (Some 2%positive))).
      split; [reflexivity|]. split; [reflexivity|]. split; [reflexivity | discriminate]. }
    eapply rtc_l; [|apply rtc_refl].
    exists 2%positive, (mkCustomError 404%Z "inner" "b.go:9 g" [] (EPlain 5 "v is 0")).
    split; [reflexivity|]. split; [reflexivity|]. split; [reflexivity | discriminate].
  - exact I.
Defined.

(** A CustomError that is its own cause: the chain never ends and no amount
    of nested calls yields an answer. *)
Lemma Cause_cycle_no_answer (fuel : nat) :
  Cause fuel (ECustom (Some 1%positive))
    {[ 1%positive := mkCustomError 500%Z "loop" "" [] (ECustom (Some 1%positive)) ]}
  = OutOfFuel.
Proof.
  induction fuel as [|fuel IH]; [done|].
  erewrite Cause_link; [exact IH|].
  exists 1%positive, (mkCustomError 500%Z "loop" "" [] (ECustom (Some 1%positive))).
  split; [reflexivity|]. split; [reflexivity|]. split; [reflexivity | discriminate].
Qed.

(** ** Rendering the traces *)

Lemma Split_lines_single (s : string) :
  single_line s = true -> Split_lines s = [s].
Proof.
  induction s as [|c s IH]; simpl; [done|].
  intros [Hc Hs]%andb_true_iff. apply negb_true_iff in Hc.
  by rewrite Hc, (IH Hs).
Qed.

Lemma Split_lines_append (x rest : string) :
  single_line x = true ->
  Split_lines (x ++ newline ++ rest) = x :: Split_lines rest.
Proof.
  induction x as [|c x IH]; simpl; [done|].
  intros [Hc Hx]%andb_true_iff. apply negb_true_iff in Hc.
  by rewrite Hc, (IH Hx).
Qed.

Lemma Split_lines_Join (x : string) (l : list string) :
  forallb single_line (x :: l) = true ->
  Split_lines (Join (x :: l) newline) = x :: l.
Proof.
  revert x. induction l as [|y l IH]; intros x Hall.
  - simpl in *. apply Split_lines_single. by apply andb_true_iff in Hall as [? _].
  - change (Join (x :: y :: l) newline) with (x ++ newline ++ Join (y :: l) newline).
    simpl in Hall. apply andb_true_iff in Hall as [Hx Hrest].
    rewrite (Split_lines_append _ _ Hx). f_equal. by apply IH.
Qed.

Lemma Join_nonempty (x : string) (l : list string) (sep : string) :
  x <> "" -> Join (x :: l) sep <> "".
Proof.
  intros Hx. destruct l as [|y l]; simpl; [done|].
  destruct x; [done | discriminate].
Qed.

Lemma PrintTrace_live (a : loc) (e : CustomError) (h : heap) :
  h !! a = Some e ->
  PrintTrace (Some a) h =
    Ok (if String.eqb (Trace e) "" then ""
        else Join (Trace e :: PreviousTraces e) newline, h).
Proof.
  intros Ha. unfold PrintTrace, bind. rewrite (deref_live a e h Ha).
  by destruct (String.eqb (Trace e) "").
Qed.

(** C6, as the source has it: PrintTrace() is the empty string when Trace is
    empty; otherwise it is Trace and then every entry of PreviousTraces in
    their order, joined by newlines, so Trace(err) of a wrapped error is not
    empty.  Provided every recorded trace is a single line (contains no
    newline), its lines are exactly Trace followed by PreviousTraces,
    1 + len(PreviousTraces) of them.  Trace of an error that is not a
    CustomError is the empty string. *)
Theorem PrintTrace_lines (a : loc) (e : CustomError) (h : heap)
    (id : positive) (msg : string) :
  h !! a = Some e ->
  (Trace e = "" -> PrintTrace (Some a) h = Ok ("", h)) /\
  (Trace e <> "" ->
     exists out : string,
       PrintTrace (Some a) h = Ok (out, h) /\
       Trace_of (ECustom (Some a)) h = Ok (out, h) /\
       out = Join (Trace e :: PreviousTraces e) newline /\
       out <> "" /\
       (forallb single_line (Trace e :: PreviousTraces e) = true ->
          Split_lines out = Trace e :: PreviousTraces e /\
          length (Split_lines out) = (1 + length (PreviousTraces e))%nat)) /\
  Trace_of ENil h = Ok ("", h) /\
  Trace_of (EPlain id msg) h = Ok ("", h).
Proof.
  intros Ha. split; [|split; [|done]].
  - intros Ht. by rewrite (PrintTrace_live a e h Ha), Ht.
  - intros Ht. exists (Join (Trace e :: PreviousTraces e) newline).
    assert (PrintTrace (Some a) h = Ok (Join (Trace e :: PreviousTraces e) newline, h))
      as Hprint.
    { rewrite (PrintTrace_live a e h Ha). apply String.eqb_neq in Ht. by rewrite Ht. }
    split; [done|]. split; [done|]. split; [done|].
    split; [by apply Join_nonempty|].
    intros Hall. rewrite (Split_lines_Join _ _ Hall). by simpl.
Qed.

Lemma PrintTrace_lines_witness :
  exists out : string,
    PrintTrace (Some 1%positive)
      {[ 1%positive := mkCustomError 500%Z "converter - v is 0"
           "main.go:20 main.converter" ["main.go:27 main.checker"] (EPlain 1 "v is 0") ]}
      = Ok (out,
            {[ 1%positive := mkCustomError 500%Z "converter - v is 0"
                 "main.go:20 main.converter" ["main.go:27 main.checker"]
                 (EPlain 1 "v is 0") ]}) /\
    Split_lines out = ["main.go:20 main.converter"; "main.go:27 main.checker"] /\
    length (Split_lines out) = 2%nat.
Proof.
  set (e := mkCustomError 500%Z "converter - v is 0"
              "main.go:20 main.converter" ["main.go:27 main.checker"] (EPlain 1 "v is 0")).
  assert (({[ 1%positive := e ]} : heap) !! 1%positive = Some e) as Ha by reflexivity.
  destruct (PrintTrace_lines 1%positive e {[ 1%positive := e ]} 1%positive "" Ha)
    as (_ & Hwrapped & _).
  destruct Hwrapped as (out & Hprint & _ & _ & _ & Hlines); [discriminate|].
  exists out. split; [exact Hprint|]. apply Hlines. reflexivity.
Defined.

(** C6 as stated fails: a trace set through WithTrace may hold a newline;
    once a wrap has pushed it into PreviousTraces, Trace(err) has more lines
    than 1 + len(PreviousTraces). *)
Lemma Trace_line_count_fails_on_multiline_trace :
  exists (a : loc) (h : heap) (e : CustomError) (out : string),
    (p <- New "m" ErrorInternalServer ;;
     WithTrace ("x" ++ newline ++ "y") p ;;;
     WrapTrace [] (ECustom p)) ∅ = Ok (ECustom (Some a), h) /\
    h !! a = Some e /\
    Trace e <> "" /\
    Trace_of (ECustom (Some a)) h = Ok (out, h) /\
    length (Split_lines out) = 3%nat /\
    length (Split_lines out) <> (1 + length (PreviousTraces e))%nat.
Proof.
  set (e := mkCustomError ErrorInternalServer "An error occurred" "unknown"
              ["x" ++ newline ++ "y"] ENil).
  exists 1%positive, {[ 1%positive := e ]}, e,
    ("unknown" ++ newline ++ "x" ++ newline ++ "y").
  split; [vm_compute; reflexivity|].
  split; [reflexivity|].
  split; [discriminate|].
  split; [vm_compute; reflexivity|].
  split; [reflexivity|].
  simpl. lia.
Qed.

(** ** Captured traces are single lines *)

Lemma single_line_append (x y : string) :
  single_line (x ++ y) = single_line x && single_line y.
Proof.
  induction x as [|c x IH]; simpl; [done|].
  by rewrite IH, andb_assoc.
Qed.

Lemma pretty_N_go_single_line (x : N) :
  forall s : string, single_line s = true -> single_line (pretty_N_go x s) = true.
Proof.
  induction (N.lt_wf_0 x) as [x _ IH]. intros s Hs.
  destruct (decide (x = 0%N)) as [->|Hx].
  - by rewrite pretty_N_go_0.
  - rewrite pretty_N_go_step by lia.
    apply IH.
    + apply N.div_lt; lia.
    + simpl. rewrite Hs, andb_true_r.
      unfold pretty_N_char. by repeat case_match.
Qed.

Lemma pretty_Z_single_line (z : Z) : single_line (pretty z) = true.
Proof.
  assert (forall p : positive, single_line (pretty p) = true) as Hpos.
  { intros p. unfold pretty, pretty_positive, pretty, pretty_N.
    case_decide; [done|]. by apply pretty_N_go_single_line. }
  destruct z as [|p|p]; unfold pretty, pretty_Z; [done | apply Hpos |].
  change (single_line ("-" ++ pretty p) = true).
  rewrite single_line_append, Hpos. done.
Qed.

Lemma captureStackTrace_single_line (stack : list Frame) :
  stack_single_line stack = true -> single_line (captureStackTrace stack) = true.
Proof.
  unfold stack_single_line, captureStackTrace, runtime_Callers.
  destruct (drop 3 stack) as [|f rest]; simpl; [done|].
  intros [Hfile Hfun]%andb_true_iff. unfold Sprintf_trace.
  rewrite !single_line_append, Hfile, Hfun, pretty_Z_single_line. done.
Qed.

(** X19: an error that is not a CustomError, wrapped 1 + length calls times
    from call sites whose file and function names contain no newline: its
    printed trace is not empty, its lines are Trace followed by
    PreviousTraces, and it has one line per wrap. *)
Lemma wrapped_Trace_line_count (w : wrap_call) (stack : list Frame)
    (calls : list (wrap_call * list Frame)) (err : error) (h : heap) :
  IsCustomError err = false ->
  forallb stack_single_line (stack :: map snd calls) = true ->
  exists (a : loc) (h' : heap) (e' : CustomError) (out : string),
    wrap_all ((w, stack) :: calls) err h = Ok (ECustom (Some a), h') /\
    h' !! a = Some e' /\
    Trace_of (ECustom (Some a)) h' = Ok (out, h') /\
    out <> "" /\
    Split_lines out = Trace e' :: PreviousTraces e' /\
    length (Split_lines out) = (1 + length (PreviousTraces e'))%nat /\
    length (Split_lines out) = (1 + length calls)%nat.
Proof.
  intros Hn Hall. simpl in Hall. apply andb_true_iff in Hall as [Hstack Hcalls].
  simpl. unfold bind. rewrite (run_wrap_fresh w stack err h Hn).
  set (e0 := mkCustomError _ _ (captureStackTrace stack) [] err).
  destruct (wrap_all_custom calls (fresh (dom h)) e0 (<[fresh (dom h) := e0]> h))
    as (h' & e' & Hrun & Hlook & _ & Hhist); [apply lookup_insert_eq|].
  unfold history in Hhist. simpl in Hhist.
  assert (forallb single_line (Trace e' :: PreviousTraces e') = true) as Hlines.
  { rewrite Hhist, forallb_app. apply andb_true_iff. split.
    - apply forallb_forall. intros t Ht. apply in_rev in Ht.
      apply in_map_iff in Ht as ([w0 s0] & <- & Hin).
      apply captureStackTrace_single_line. simpl.
      rewrite forallb_forall in Hcalls. apply Hcalls.
      apply in_map_iff. by exists (w0, s0).
    - cbn [forallb]. by rewrite (captureStackTrace_single_line stack Hstack). }
  assert (Trace e' <> "") as Hne.
  { assert (Forall (fun t : string => t <> "") (Trace e' :: PreviousTraces e')) as Hall.
    { rewrite Hhist. apply Forall_app. split.
      - apply Forall_forall. intros t Ht. apply list_elem_of_In, in_rev in Ht.
        apply in_map_iff in Ht as (c & <- & _). apply captureStackTrace_nonempty.
      - apply Forall_cons. split; [apply captureStackTrace_nonempty | apply Forall_nil_2]. }
    by apply Forall_cons in Hall as [? _]. }
  exists (fresh (dom h)), h', e', (Join (Trace e' :: PreviousTraces e') newline).
  split; [exact Hrun|]. split; [exact Hlook|].
  split.
  { simpl. rewrite (PrintTrace_live _ e' h' Hlook).
    apply String.eqb_neq in Hne. by rewrite Hne. }
  split; [by apply Join_nonempty|].
  rewrite (Split_lines_Join _ _ Hlines).
  split; [done|]. split; [done|].
  rewrite Hhist, length_app, length_rev, length_map. simpl. lia.
Qed.

(** ** Options in general *)

Lemma apply_opts_descs (ds : list option_desc) (a : loc) (e : CustomError) (h : heap) :
  h !! a = Some e ->
  apply_opts (map denote_option ds) (Some a) h = Ok (tt, <[a := set_fields ds e]> h).
Proof.
  revert e h. induction ds as [|d ds IH]; intros e h Ha; simpl.
  - unfold ret. by rewrite insert_id.
  - unfold bind.
    assert (denote_option d (Some a) h = Ok (tt, <[a := set_field d e]> h)) as ->.
    { destruct d; simpl;
        unfold WithCode, WithMessage, WithTrace, WithPreviousTraces, WithCause;
        by apply update_live. }
    rewrite (IH (set_field d e)) by apply lookup_insert_eq.
    by rewrite insert_insert_eq.
Qed.

Lemma default_last_cons {A : Type} (x y : A) (l : list A) :
  default x (last (y :: l)) = default y (last l).
Proof.
  revert x y. induction l as [|z l IH]; intros x y; [done|].
  change (last (y :: z :: l)) with (last (z :: l)).
  by rewrite (IH x z), (IH y z).
Qed.

Lemma set_fields_last (ds : list option_desc) (e : CustomError) :
  set_fields ds e =
    mkCustomError (default (code e) (last (codes_of ds)))
                  (default (Message e) (last (messages_of ds)))
                  (default (Trace e) (last (traces_of ds)))
                  (default (PreviousTraces e) (last (previous_of ds)))
                  (default (Err e) (last (causes_of ds))).
Proof.
  revert e. induction ds as [|d ds IH]; intros e.
  - by destruct e.
  - simpl. rewrite IH.
    unfold codes_of, messages_of, traces_of, previous_of, causes_of.
    destruct d; simpl; by rewrite default_last_cons.
Qed.

Lemma newCustomError_descs (ds : list option_desc) (h : heap) :
  newCustomError (map denote_option ds) h =
    Ok (Some (fresh (dom h)), <[fresh (dom h) := set_fields ds zeroCustomError]> h).
Proof.
  unfold newCustomError, bind, alloc.
  erewrite apply_opts_descs by apply lookup_insert_eq.
  unfold ret. by rewrite insert_insert_eq.
Qed.

(** X1: newCustomError with any sequence of the five options never panics
    and allocates one new object; each of its fields holds the argument of
    the last option given for that field, or the zero value when no option
    for that field is given.  Objects already allocated are not changed. *)
Theorem newCustomError_last_option_wins (ds : list option_desc) (h : heap) :
  exists (a : loc) (e' : CustomError),
    newCustomError (map denote_option ds) h = Ok (Some a, <[a := e']> h) /\
    h !! a = None /\
    (forall b : loc, is_Some (h !! b) -> b <> a /\ <[a := e']> h !! b = h !! b) /\
    code e' = default 0%Z (last (codes_of ds)) /\
    Message e' = default "" (last (messages_of ds)) /\
    Trace e' = default "" (last (traces_of ds)) /\
    PreviousTraces e' = default [] (last (previous_of ds)) /\
    Err e' = default ENil (last (causes_of ds)).
Proof.
  exists (fresh (dom h)), (set_fields ds zeroCustomError).
  split; [apply newCustomError_descs|].
  split; [apply fresh_unused|].
  split.
  { intros b [x Hb].
    assert (b <> fresh (dom h)) as Hne.
    { intros ->. by rewrite fresh_unused in Hb. }
    split; [done|]. by rewrite lookup_insert_ne. }
  by rewrite set_fields_last.
Qed.

(** X2: on an allocated object, two options that assign different fields
    can be applied in either order with the same result. *)
Theorem options_on_different_fields_commute (d1 d2 : option_desc)
    (a : loc) (e : CustomError) (h : heap) :
  h !! a = Some e ->
  field_of d1 <> field_of d2 ->
  apply_opts [denote_option d1; denote_option d2] (Some a) h =
  apply_opts [denote_option d2; denote_option d1] (Some a) h.
Proof.
  intros Ha Hne.
  change [denote_option d1; denote_option d2] with (map denote_option [d1; d2]).
  change [denote_option d2; denote_option d1] with (map denote_option [d2; d1]).
  rewrite !(apply_opts_descs _ a e h Ha).
  destruct d1, d2; simpl in *; done.
Qed.

Lemma options_on_different_fields_commute_witness :
  apply_opts [WithCode 404%Z; WithMessage "gone"] (Some 1%positive)
    {[ 1%positive := zeroCustomError ]} =
  apply_opts [WithMessage "gone"; WithCode 404%Z] (Some 1%positive)
    {[ 1%positive := zeroCustomError ]}.
Proof.
  apply (options_on_different_fields_commute (DCode 404%Z) (DMessage "gone")
           1%positive zeroCustomError).
  - reflexivity.
  - simpl. lia.
Defined.

(** X3: a second option for the same field replaces the effect of the first:
    applying both leaves the object as applying the second alone does. *)
Theorem option_same_field_overrides (d1 d2 : option_desc)
    (a : loc) (e : CustomError) (h : heap) :
  h !! a = Some e ->
  field_of d1 = field_of d2 ->
  apply_opts [denote_option d1; denote_option d2] (Some a) h =
  apply_opts [denote_option d2] (Some a) h.
Proof.
  intros Ha Heq.
  change [denote_option d1; denote_option d2] with (map denote_option [d1; d2]).
  change [denote_option d2] with (map denote_option [d2]).
  rewrite !(apply_opts_descs _ a e h Ha).
  destruct d1, d2; simpl in *; done.
Qed.

Lemma option_same_field_overrides_witness :
  apply_opts [WithCode 404%Z; WithCode 403%Z] (Some 1%positive)
    {[ 1%positive := zeroCustomError ]} =
  apply_opts [WithCode 403%Z] (Some 1%positive)
    {[ 1%positive := zeroCustomError ]}.
Proof.
  apply (option_same_field_overrides (DCode 404%Z) (DCode 403%Z)
           1%positive zeroCustomError); reflexivity.
Defined.

(** ** A nil pointer in an error value *)

(** X4: an error value holding a nil CustomError pointer counts as a
    CustomError; every wrap entry point, Trace, Cause and Is (as target)
    panic on it, while Unwrap returns it unchanged. *)
Theorem nil_pointer_behaviour (w : wrap_call) (stack : list Frame) (h : heap)
    (p : option loc) (fuel : nat) :
  IsCustomError (ECustom None) = true /\
  run_wrap w stack (ECustom None) h = Panic /\
  Trace_of (ECustom None) h = Panic /\
  Cause (S fuel) (ECustom None) h = Crash /\
  Is p (ECustom None) h = Panic /\
  Unwrap (ECustom None) h = Ok (ECustom None, h).
Proof.
  split; [done|]. split; [by destruct w|]. split; [done|]. split; [done|].
  split; [|done].
  unfold Is, bind, deref. destruct p as [a|]; [|done]. by destruct (h !! a).
Qed.

(** ** Unwrap and Cause after wrapping *)

Lemma Unwrap_live (a : loc) (e : CustomError) (h : heap) :
  h !! a = Some e -> Unwrap (ECustom (Some a)) h = Ok (Err e, h).
Proof.
  intros Ha. unfold Unwrap, Cause_method, bind. by rewrite (deref_live a e h Ha).
Qed.

(** X5: an error that is not a CustomError (nil included), wrapped any
    number of times (at least once) through the entry points, is given back
    by a single Unwrap of the result, and by the methods Unwrap() and Cause()
    alike. *)
Theorem Unwrap_after_wraps (w : wrap_call) (stack : list Frame)
    (calls : list (wrap_call * list Frame)) (err : error) (h : heap) :
  IsCustomError err = false ->
  exists (a : loc) (h' : heap),
    wrap_all ((w, stack) :: calls) err h = Ok (ECustom (Some a), h') /\
    Unwrap (ECustom (Some a)) h' = Ok (err, h') /\
    Unwrap_method (Some a) h' = Ok (err, h') /\
    Cause_method (Some a) h' = Ok (err, h').
Proof.
  intros Hn. cbn [wrap_all]. unfold bind at 1.
  rewrite (run_wrap_fresh w stack err h Hn).
  set (e0 := mkCustomError _ _ (captureStackTrace stack) [] err).
  destruct (wrap_all_custom calls (fresh (dom h)) e0 (<[fresh (dom h) := e0]> h))
    as (h' & e' & Hrun & Hlook & Herr & _); [apply lookup_insert_eq|].
  exists (fresh (dom h)), h'. split; [exact Hrun|].
  rewrite (Unwrap_live _ e' h' Hlook).
  unfold Unwrap_method, Cause_method, bind. rewrite (deref_live _ e' h' Hlook).
  unfold ret. by rewrite Herr.
Qed.

Lemma Unwrap_after_wraps_witness :
  exists (a : loc) (h' : heap),
    wrap_all [(CallWrapTrace, []); (CallWrapMessage "again", [])] ENil ∅
      = Ok (ECustom (Some a), h') /\
    Unwrap (ECustom (Some a)) h' = Ok (ENil, h').
Proof.
  destruct (Unwrap_after_wraps CallWrapTrace [] [(CallWrapMessage "again", [])]
              ENil ∅ eq_refl) as (a & h' & Hrun & Hun & _).
  exists a, h'. by split.
Defined.

(** The result of [Cause] depends on the heap only through the causes
    recorded in it. *)
Lemma Cause_same_causes (h h' : heap) :
  (forall a : loc, Err <$> (h' !! a) = Err <$> (h !! a)) ->
  forall (fuel : nat) (x : error), Cause fuel x h' = Cause fuel x h.
Proof.
  intros Hsame fuel. induction fuel as [|fuel IH]; intros x; [done|].
  simpl. destruct x as [|id msg|[a|]]; try done.
  unfold Cause_method, bind, deref. specialize (Hsame a).
  destruct (h' !! a) as [e'|], (h !! a) as [e|]; simpl in *; try done.
  injection Hsame as ->. unfold ret.
  destruct (decide (Err e = ENil)); [done | apply IH].
Qed.

(** X6: wrapping an allocated CustomError again changes the root cause of no
    error: Cause gives, for every error and every number of nested calls, the
    same answer after the wrap as before, and Unwrap of the wrapped error
    gives the same cause. *)
Theorem rewrap_keeps_causes (w : wrap_call) (stack : list Frame)
    (a : loc) (e : CustomError) (h : heap) :
  h !! a = Some e ->
  exists h' : heap,
    run_wrap w stack (ECustom (Some a)) h = Ok (ECustom (Some a), h') /\
    (forall (fuel : nat) (x : error), Cause fuel x h' = Cause fuel x h) /\
    Unwrap (ECustom (Some a)) h' = Ok (Err e, h') /\
    Unwrap (ECustom (Some a)) h = Ok (Err e, h).
Proof.
  intros Ha. eexists. split; [by apply run_wrap_custom|].
  split; [|split].
  - apply Cause_same_causes. intros b.
    destruct (decide (a = b)) as [<-|Hne].
    + by rewrite lookup_insert_eq, Ha.
    + by rewrite lookup_insert_ne.
  - by erewrite Unwrap_live by apply lookup_insert_eq.
  - by apply Unwrap_live.
Qed.

Lemma rewrap_keeps_causes_witness :
  exists h' : heap,
    WrapMessage [] (ECustom (Some 1%positive)) "outer again" nested_heap
      = Ok (ECustom (Some 1%positive), h') /\
    Cause 3 (ECustom (Some 1%positive)) h' = Done (EPlain 5 "v is 0").
Proof.
  destruct (rewrap_keeps_causes (CallWrapMessage "outer again") [] 1%positive
              (mkCustomError 500%Z "outer" "a.go:3 f" [] (ECustom (Some 2%positive)))
              nested_heap eq_refl) as (h' & Hrun & Hcause & _).
  exists h'. split; [exact Hrun|]. rewrite Hcause. reflexivity.
Defined.

(** X7: wrapping an error that is not a CustomError and then asking for the
    root cause: for a foreign error Cause returns that error; for nil, where
    the new CustomError has no cause, Cause returns the new CustomError
    itself, not nil. *)
Theorem Cause_after_wrap_fresh (w : wrap_call) (stack : list Frame)
    (id : positive) (msg : string) (h : heap) (fuel : nat) :
  (exists (a : loc) (h' : heap),
     run_wrap w stack (EPlain id msg) h = Ok (ECustom (Some a), h') /\
     Cause (S (S fuel)) (ECustom (Some a)) h' = Done (EPlain id msg)) /\
  (exists (a : loc) (h' : heap),
     run_wrap w stack ENil h = Ok (ECustom (Some a), h') /\
     Cause (S fuel) (ECustom (Some a)) h' = Done (ECustom (Some a))).
Proof.
  split.
  - eexists _, _. split; [by apply run_wrap_fresh|].
    rewrite (Cause_link _ _ (EPlain id msg)); [reflexivity|].
    eexists _, _. split; [reflexivity|]. split; [apply lookup_insert_eq|]. by split.
  - eexists _, _. split; [by apply run_wrap_fresh|].
    apply Cause_terminal. eexists _, _. split; [reflexivity|].
    split; [apply lookup_insert_eq|]. done.
Qed.

(** ** What an answer of Cause means *)

Lemma Cause_answer_chain (h : heap) (fuel : nat) :
  forall err t : error,
    Cause fuel err h = Done t -> rtc (cause_link h) err t /\ terminal h t.
Proof.
  induction fuel as [|fuel IH]; intros err t Hrun; [discriminate|].
  simpl in Hrun. destruct err as [|id msg|[a|]].
  - injection Hrun as <-. by split.
  - injection Hrun as <-. by split.
  - unfold Cause_method, bind, deref in Hrun.
    destruct (h !! a) as [e|] eqn:Ha; [|discriminate].
    unfold ret in Hrun. destruct (decide (Err e = ENil)) as [He|He].
    + injection Hrun as <-. split; [done|]. by exists a, e.
    + destruct (IH _ _ Hrun) as [Hchain Hterm]. split; [|done].
      eapply rtc_l; [|exact Hchain]. by exists a, e.
  - discriminate.
Qed.

(** X8: whenever Cause(err) returns an error t, t is reached from err along
    cause links and is terminal (not a CustomError, or a CustomError without
    cause); and Cause is idempotent: Cause(t) returns t again. *)
Theorem Cause_answer_is_terminal (h : heap) (fuel : nat) (err t : error) :
  Cause fuel err h = Done t ->
  rtc (cause_link h) err t /\
  terminal h t /\
  (forall fuel' : nat, Cause (S fuel') t h = Done t).
Proof.
  intros Hrun. destruct (Cause_answer_chain h fuel err t Hrun) as [Hchain Hterm].
  split; [done|]. split; [done|]. intros fuel'. by apply Cause_terminal.
Qed.

Lemma Cause_answer_is_terminal_witness :
  terminal nested_heap (EPlain 5 "v is 0") /\
  Cause 1 (EPlain 5 "v is 0") nested_heap = Done (EPlain 5 "v is 0").
Proof.
  destruct (Cause_answer_is_terminal nested_heap 3 (ECustom (Some 1%positive))
              (EPlain 5 "v is 0") eq_refl) as (_ & Hterm & Hidem).
  split; [exact Hterm | apply Hidem].
Defined.

(** X9: on an error that lies on a cycle of cause links (which WithCause or
    an assignment to the exported field can build), the recursion of Cause
    never returns: no number of nested calls yields an answer or a panic. *)
Theorem Cause_diverges_on_cycle (h : heap) (x : error) :
  tc (cause_link h) x x ->
  forall fuel : nat, Cause fuel x h = OutOfFuel.
Proof.
  intros Hcycle fuel. revert x Hcycle.
  induction fuel as [|fuel IH]; intros x Hcycle; [done|].
  assert (exists y : error, cause_link h x y /\ tc (cause_link h) y y) as (y & Hxy & Hy).
  { inversion Hcycle as [? ? Hxx|? y ? Hxy Hyx]; subst.
    - by exists x.
    - exists y. split; [done|]. by eapply tc_r. }
  rewrite (Cause_link h x y fuel Hxy). by apply IH.
Qed.

Lemma Cause_diverges_on_cycle_witness :
  exists h' : heap,
    (p <- New "loop" ErrorInternalServer ;;
     WithCause (ECustom p) p) ∅ = Ok (tt, h') /\
    Cause 1000 (ECustom (Some 1%positive)) h' = OutOfFuel.
Proof.
  exists {[ 1%positive :=
              mkCustomError ErrorInternalServer "loop" "" [] (ECustom (Some 1%positive)) ]}.
  split; [vm_compute; reflexivity|].
  apply Cause_diverges_on_cycle. apply tc_once.
  exists 1%positive,
    (mkCustomError ErrorInternalServer "loop" "" [] (ECustom (Some 1%positive))).
  split; [reflexivity|]. split; [reflexivity|]. split; [reflexivity | discriminate].
Defined.

(** ** Code and message after wrapping an existing CustomError *)

Lemma Code_live (a : loc) (e : CustomError) (h : heap) :
  h !! a = Some e -> Code (Some a) h = Ok (code e, h).
Proof. intros Ha. unfold Code, bind. by rewrite (deref_live a e h Ha). Qed.

(** X10: on an allocated CustomError, WrapTrace keeps the code but replaces
    the message by An error occurred; WrapMessage replaces the message and
    forces the code to 500 whatever it was; WrapMessageWithCode replaces
    both. *)
Theorem rewrap_code_and_message (stack : list Frame) (a : loc) (e : CustomError)
    (h : heap) (c : ErrorCode) (msg : string) :
  h !! a = Some e ->
  (exists h' : heap,
     WrapTrace stack (ECustom (Some a)) h = Ok (ECustom (Some a), h') /\
     Code (Some a) h' = Ok (code e, h') /\
     Error (Some a) h' = Ok ("An error occurred", h')) /\
  (exists h' : heap,
     WrapMessage stack (ECustom (Some a)) msg h = Ok (ECustom (Some a), h') /\
     Code (Some a) h' = Ok (ErrorInternalServer, h') /\
     Error (Some a) h' = Ok (if String.eqb msg "" then "unknown error" else msg, h')) /\
  (exists h' : heap,
     WrapMessageWithCode stack (ECustom (Some a)) c msg h = Ok (ECustom (Some a), h') /\
     Code (Some a) h' = Ok (c, h') /\
     Error (Some a) h' = Ok (if String.eqb msg "" then "unknown error" else msg, h')).
Proof.
  intros Ha. split; [|split]; eexists.
  - split; [exact (run_wrap_custom CallWrapTrace stack a e h Ha)|].
    by erewrite Code_live, Error_live by apply lookup_insert_eq.
  - split; [exact (run_wrap_custom (CallWrapMessage msg) stack a e h Ha)|].
    by erewrite Code_live, Error_live by apply lookup_insert_eq.
  - split; [exact (run_wrap_custom (CallWrapMessageWithCode c msg) stack a e h Ha)|].
    by erewrite Code_live, Error_live by apply lookup_insert_eq.
Qed.

Lemma rewrap_code_and_message_witness :
  exists h' : heap,
    WrapMessage [] (ECustom (Some 1%positive)) "wrapped"
      {[ 1%positive := mkCustomError ErrorNotFound "missing" "a.go:1 f" [] ENil ]}
      = Ok (ECustom (Some 1%positive), h') /\
    Code (Some 1%positive) h' = Ok (ErrorInternalServer, h').
Proof.
  assert (({[ 1%positive := mkCustomError ErrorNotFound "missing" "a.go:1 f" [] ENil ]}
             : heap) !! 1%positive
          = Some (mkCustomError ErrorNotFound "missing" "a.go:1 f" [] ENil))
    as Hlive by reflexivity.
  destruct (rewrap_code_and_message [] _ _ _ 0%Z "wrapped" Hlive)
    as (_ & (h' & Hrun & Hcode & _) & _).
  exists h'. by split.
Defined.

(** ** A newly constructed error *)

(** X11: New(msg, c) never panics and returns a pointer to a new object,
    different from every allocated one and leaving them unchanged; its Code()
    is c, it has no cause (Cause(), Unwrap() and Unwrap give nil, and Cause
    returns the error itself), and its PrintTrace() and Trace are empty. *)
Theorem New_fresh_object (msg : string) (c : ErrorCode) (h : heap) (fuel : nat) :
  exists (a : loc) (h' : heap),
    New msg c h = Ok (Some a, h') /\
    h !! a = None /\
    (forall b : loc, b <> a -> h' !! b = h !! b) /\
    Code (Some a) h' = Ok (c, h') /\
    Cause_method (Some a) h' = Ok (ENil, h') /\
    Unwrap_method (Some a) h' = Ok (ENil, h') /\
    Unwrap (ECustom (Some a)) h' = Ok (ENil, h') /\
    Cause (S fuel) (ECustom (Some a)) h' = Done (ECustom (Some a)) /\
    PrintTrace (Some a) h' = Ok ("", h') /\
    Trace_of (ECustom (Some a)) h' = Ok ("", h').
Proof.
  eexists _, _. split; [apply New_allocates|].
  split; [apply fresh_unused|].
  split.
  { intros b Hb. by rewrite lookup_insert_ne. }
  split; [by erewrite Code_live by apply lookup_insert_eq|].
  assert (forall h0 : heap, h0 !! fresh (dom h) = Some (mkCustomError c msg "" [] ENil) ->
            Cause_method (Some (fresh (dom h))) h0 = Ok (ENil, h0)) as Hcause.
  { intros h0 H0. unfold Cause_method, bind. by rewrite (deref_live _ _ _ H0). }
  split; [apply Hcause, lookup_insert_eq|].
  split; [apply Hcause, lookup_insert_eq|].
  split; [by erewrite Unwrap_live by apply lookup_insert_eq|].
  split.
  { apply Cause_terminal. eexists _, _. split; [reflexivity|].
    split; [apply lookup_insert_eq | reflexivity]. }
  split; [by erewrite PrintTrace_live by apply lookup_insert_eq|].
  simpl. by erewrite PrintTrace_live by apply lookup_insert_eq.
Qed.

(** X12: wrapping an error made by New pushes its empty Trace into
    PreviousTraces: after one wrap PreviousTraces is the list holding the
    empty string, and PrintTrace() is the captured trace followed by a
    newline, that is two lines of which the second is empty. *)
Theorem New_then_wrap_empty_line (msg : string) (c : ErrorCode) (w : wrap_call)
    (stack : list Frame) (h : heap) :
  exists (a : loc) (h' : heap) (e' : CustomError),
    (p <- New msg c ;; run_wrap w stack (ECustom p)) h = Ok (ECustom (Some a), h') /\
    h' !! a = Some e' /\
    Trace e' = captureStackTrace stack /\
    PreviousTraces e' = [""] /\
    PrintTrace (Some a) h' = Ok (captureStackTrace stack ++ newline, h') /\
    (stack_single_line stack = true ->
       Split_lines (captureStackTrace stack ++ newline) = [captureStackTrace stack; ""]).
Proof.
  eexists _, _, _. split.
  { unfold bind at 1. rewrite New_allocates.
    apply run_wrap_custom, lookup_insert_eq. }
  rewrite lookup_insert_eq. split; [reflexivity|]. simpl.
  split; [reflexivity|]. split; [reflexivity|]. split.
  - erewrite PrintTrace_live by apply lookup_insert_eq. simpl.
    pose proof (captureStackTrace_nonempty stack) as Hne.
    apply String.eqb_neq in Hne. by rewrite Hne.
  - intros Hstack.
    change (captureStackTrace stack ++ newline)
      with (captureStackTrace stack ++ newline ++ "").
    by rewrite Split_lines_append by by apply captureStackTrace_single_line.
Qed.

Lemma New_then_wrap_empty_line_witness :
  Split_lines (captureStackTrace [] ++ newline) = [captureStackTrace []; ""].
Proof.
  destruct (New_then_wrap_empty_line "m" 0%Z CallWrapTrace [] ∅)
    as (a & h' & e' & _ & _ & _ & _ & _ & Hlines).
  apply Hlines. reflexivity.
Defined.

(** ** The unknown trace *)

Lemma has_char_append (c : Ascii.ascii) (x y : string) :
  has_char c (x ++ y) = has_char c x || has_char c y.
Proof.
  induction x as [|c' x IH]; simpl; [done|].
  by rewrite IH, orb_assoc.
Qed.

(** X13: the captured trace is the text unknown exactly when the stack seen
    by runtime.Callers has no frame left after the three skipped ones; the
    trace of a resolved frame always contains a colon and so never reads
    unknown. *)
Theorem captureStackTrace_unknown_iff (stack : list Frame) :
  (captureStackTrace stack = "unknown" <-> (length stack <= 3)%nat) /\
  ((3 < length stack)%nat -> has_char colon (captureStackTrace stack) = true).
Proof.
  assert ((3 < length stack)%nat -> has_char colon (captureStackTrace stack) = true)
    as Hcolon.
  { intros Hlen. unfold captureStackTrace, runtime_Callers.
    destruct (drop 3 stack) as [|f rest] eqn:Hdrop.
    - apply (f_equal length) in Hdrop. rewrite length_drop in Hdrop. simpl in Hdrop. lia.
    - simpl. unfold Sprintf_trace. rewrite !has_char_append. simpl.
      by rewrite orb_true_r. }
  split; [|exact Hcolon]. split.
  - intros Hunknown. destruct (decide (length stack <= 3)%nat) as [|Hgt]; [done|].
    assert (3 < length stack)%nat as Hlen by lia.
    apply Hcolon in Hlen. rewrite Hunknown in Hlen. discriminate.
  - intros Hlen. apply captureStackTrace_unknown. by apply drop_ge.
Qed.

Lemma captureStackTrace_unknown_iff_witness :
  (length [mkFrame "a.go" 1 "f"; mkFrame "b.go" 2 "g"] <= 3)%nat /\
  captureStackTrace [mkFrame "a.go" 1 "f"; mkFrame "b.go" 2 "g"] = "unknown".
Proof.
  split; [simpl; lia|].
  apply (captureStackTrace_unknown_iff [mkFrame "a.go" 1 "f"; mkFrame "b.go" 2 "g"]).
  simpl. lia.
Defined.

(** ** Any number of wraps *)

Lemma wrap_all_custom_frame (calls : list (wrap_call * list Frame))
    (a : loc) (e : CustomError) (h : heap) :
  h !! a = Some e ->
  exists h' : heap,
    wrap_all calls (ECustom (Some a)) h = Ok (ECustom (Some a), h') /\
    dom h' = dom h /\
    (forall b : loc, b <> a -> h' !! b = h !! b).
Proof.
  revert e h. induction calls as [|[w stack] calls IH]; intros e h Ha.
  - by exists h.
  - simpl. unfold bind. rewrite (run_wrap_custom w stack a e h Ha).
    set (e1 := mkCustomError _ _ (captureStackTrace stack) _ (Err e)).
    destruct (IH e1 (<[a := e1]> h)) as (h' & Hrun & Hdom & Hframe);
      [apply lookup_insert_eq|].
    exists h'. split; [exact Hrun|]. split.
    + rewrite Hdom. apply dom_insert_lookup_L. by exists e.
    + intros b Hb. rewrite (Hframe b Hb). by rewrite lookup_insert_ne.
Qed.

(** X14: an error that is not a CustomError, wrapped any number of times (at
    least once) through the entry points, ends as a single new object: one
    address is allocated by the first wrap and none after, the objects
    allocated before are unchanged, the cause is the original error, and
    Trace followed by PreviousTraces lists the captured traces of all the
    wraps from the latest back to the first. *)
Theorem wrap_all_plain_history (w : wrap_call) (stack : list Frame)
    (calls : list (wrap_call * list Frame)) (err : error) (h : heap) :
  IsCustomError err = false ->
  exists (a : loc) (h' : heap) (e' : CustomError),
    wrap_all ((w, stack) :: calls) err h = Ok (ECustom (Some a), h') /\
    h !! a = None /\
    h' !! a = Some e' /\
    dom h' = {[a]} ∪ dom h /\
    (forall b : loc, b <> a -> h' !! b = h !! b) /\
    Err e' = err /\
    Trace e' :: PreviousTraces e' =
      rev (map captureStackTrace (stack :: map snd calls)) /\
    length (PreviousTraces e') = length calls.
Proof.
  intros Hn. cbn [wrap_all]. unfold bind at 1.
  rewrite (run_wrap_fresh w stack err h Hn).
  set (a := fresh (dom h)).
  set (e0 := mkCustomError _ _ (captureStackTrace stack) [] err).
  destruct (wrap_all_custom calls a e0 (<[a := e0]> h))
    as (h' & e' & Hrun & Hlook & Herr & Hhist); [apply lookup_insert_eq|].
  destruct (wrap_all_custom_frame calls a e0 (<[a := e0]> h))
    as (h'' & Hrun' & Hdom & Hframe); [apply lookup_insert_eq|].
  rewrite Hrun in Hrun'. injection Hrun' as <-.
  assert (Trace e' :: PreviousTraces e' =
            rev (map captureStackTrace (stack :: map snd calls))) as Hall.
  { unfold history in Hhist. rewrite Hhist. simpl. by rewrite map_map. }
  exists a, h', e'. split; [exact Hrun|].
  split; [apply fresh_unused|]. split; [exact Hlook|].
  split; [by rewrite Hdom, dom_insert_L|].
  split.
  { intros b Hb. rewrite (Hframe b Hb). by rewrite lookup_insert_ne. }
  split; [exact Herr|]. split; [exact Hall|].
  apply (f_equal length) in Hall.
  rewrite length_rev in Hall. simpl in Hall. rewrite !length_map in Hall. lia.
Qed.

Lemma wrap_all_plain_history_witness :
  exists (a : loc) (h' : heap) (e' : CustomError),
    wrap_all [(CallWrapTrace, []); (CallWrapTrace, []); (CallWrapTrace, []);
              (CallWrapTrace, [])] (EPlain 1 "v is 0") ∅
      = Ok (ECustom (Some a), h') /\
    h' !! a = Some e' /\
    length (PreviousTraces e') = 3%nat.
Proof.
  destruct (wrap_all_plain_history CallWrapTrace []
              [(CallWrapTrace, []); (CallWrapTrace, []); (CallWrapTrace, [])]
              (EPlain 1 "v is 0") ∅ eq_refl)
    as (a & h' & e' & Hrun & _ & Hlook & _ & _ & _ & _ & Hlen).
  exists a, h', e'. split; [exact Hrun|]. by split.
Defined.

Lemma wrapped_Trace_line_count_witness :
  exists (a : loc) (h' : heap) (out : string),
    wrap_all [(CallWrapMessage "v is 0", []); (CallWrapMessage "converter - v is 0", [])]
      (EPlain 1 "v is 0") ∅ = Ok (ECustom (Some a), h') /\
    Trace_of (ECustom (Some a)) h' = Ok (out, h') /\
    length (Split_lines out) = 2%nat.
Proof.
  destruct (wrapped_Trace_line_count (CallWrapMessage "v is 0") []
              [(CallWrapMessage "converter - v is 0", [])]
              (EPlain 1 "v is 0") ∅ eq_refl eq_refl)
    as (a & h' & e' & out & Hrun & _ & Htrace & _ & _ & _ & Hlen).
  exists a, h', out. split; [exact Hrun|]. by split.
Defined.

(** ** The example program *)

Lemma converter_zero_runs (stack_checker stack_converter : list Frame)
    (id : positive) (h : heap) :
  converter stack_checker stack_converter id 0 h =
    Ok ((0%Z, ECustom (Some (fresh (dom h)))),
        <[fresh (dom h) :=
            mkCustomError ErrorInternalServer "converter - v is 0"
              (captureStackTrace stack_converter)
              [captureStackTrace stack_checker] (EPlain id "v is 0")]> h).
Proof.
  unfold converter. unfold bind at 1.
  assert (checker stack_checker id 0 h =
            Ok ((0%Z, ECustom (Some (fresh (dom h)))),
                <[fresh (dom h) :=
                    mkCustomError ErrorInternalServer "v is 0"
                      (captureStackTrace stack_checker) [] (EPlain id "v is 0")]> h))
    as ->.
  { unfold checker. cbn [Z.eqb]. unfold bind, errors_New.
    pose proof (run_wrap_fresh (CallWrapMessage "v is 0") stack_checker
                  (EPlain id "v is 0") h eq_refl) as Hrun.
    cbn [run_wrap] in Hrun. by rewrite Hrun. }
  cbn [snd].
  destruct (decide (ECustom (Some (fresh (dom h))) <> ENil)) as [_|Hn];
    [|by destruct Hn].
  unfold bind.
  pose proof (run_wrap_custom (CallWrapMessage "converter - v is 0") stack_converter
                (fresh (dom h)) _ _
                (lookup_insert_eq h (fresh (dom h))
                   (mkCustomError ErrorInternalServer "v is 0"
                      (captureStackTrace stack_checker) [] (EPlain id "v is 0"))))
    as Hrun.
  cbn [run_wrap] in Hrun. rewrite Hrun. unfold ret. simpl.
  by rewrite insert_insert_eq.
Qed.

(** X15: converter(0) returns 0 and a single new CustomError with code 500
    and message converter - v is 0, whose cause is the error made by
    errors.New in checker; its PrintTrace() is the trace captured in
    converter, a newline, and the trace captured in checker; Cause gives the
    errors.New error. *)
Theorem converter_zero (stack_checker stack_converter : list Frame)
    (id : positive) (h : heap) (fuel : nat) :
  exists (a : loc) (h' : heap),
    converter stack_checker stack_converter id 0 h = Ok ((0%Z, ECustom (Some a)), h') /\
    h !! a = None /\
    (forall b : loc, b <> a -> h' !! b = h !! b) /\
    Code (Some a) h' = Ok (ErrorInternalServer, h') /\
    Error (Some a) h' = Ok ("converter - v is 0", h') /\
    PrintTrace (Some a) h' =
      Ok (captureStackTrace stack_converter ++ newline ++
          captureStackTrace stack_checker, h') /\
    Unwrap (ECustom (Some a)) h' = Ok (EPlain id "v is 0", h') /\
    Cause (S (S fuel)) (ECustom (Some a)) h' = Done (EPlain id "v is 0").
Proof.
  eexists _, _. split; [apply converter_zero_runs|].
  split; [apply fresh_unused|].
  split.
  { intros b Hb. by rewrite lookup_insert_ne. }
  split; [by erewrite Code_live by apply lookup_insert_eq|].
  split; [by erewrite Error_live by apply lookup_insert_eq|].
  split.
  { erewrite PrintTrace_live by apply lookup_insert_eq. simpl.
    pose proof (captureStackTrace_nonempty stack_converter) as Hne.
    apply String.eqb_neq in Hne. by rewrite Hne. }
  split; [by erewrite Unwrap_live by apply lookup_insert_eq|].
  rewrite (Cause_link _ _ (EPlain id "v is 0")); [reflexivity|].
  eexists _, _. split; [reflexivity|]. split; [apply lookup_insert_eq|]. by split.
Qed.

(** X16: for a value other than 0, checker returns the value and nil, and
    converter returns 0 (not the value) and nil; neither allocates or changes
    anything. *)
Theorem converter_nonzero (stack_checker stack_converter : list Frame)
    (id : positive) (v : Z) (h : heap) :
  v <> 0%Z ->
  checker stack_checker id v h = Ok ((v, ENil), h) /\
  converter stack_checker stack_converter id v h = Ok ((0%Z, ENil), h).
Proof.
  intros Hv. apply Z.eqb_neq in Hv.
  unfold converter, checker, bind. by rewrite Hv.
Qed.

Lemma converter_nonzero_witness :
  converter [] [] 1%positive 7 ∅ = Ok ((0%Z, ENil), ∅).
Proof. apply (converter_nonzero [] [] 1%positive 7 ∅). lia. Defined.

(** X17: main writes exactly one text to standard output: the trace captured
    in converter, a newline, the trace captured in checker, and the newline
    added by Println. *)
Theorem main_prints_both_traces (stack_checker stack_converter : list Frame)
    (id : positive) (h : heap) :
  exists h' : heap,
    main stack_checker stack_converter id h =
      Ok ([(captureStackTrace stack_converter ++ newline ++
            captureStackTrace stack_checker) ++ newline], h').
Proof.
  eexists. unfold main, bind at 1. rewrite converter_zero_runs. simpl.
  unfold bind. erewrite PrintTrace_live by apply lookup_insert_eq. simpl.
  pose proof (captureStackTrace_nonempty stack_converter) as Hne.
  apply String.eqb_neq in Hne. by rewrite Hne.
Qed.

(** ** Is as a relation *)

Lemma Is_live (a b : loc) (ea eb : CustomError) (h : heap) :
  h !! a = Some ea -> h !! b = Some eb ->
  Is (Some a) (ECustom (Some b)) h = Ok (Z.eqb (code ea) (code eb), h).
Proof.
  intros Ha Hb. unfold Is, bind.
  by rewrite (deref_live a ea h Ha), (deref_live b eb h Hb).
Qed.

(** X18: on allocated CustomErrors, Is is an equivalence: every error Is
    itself, Is gives the same answer with receiver and target exchanged, and
    it is transitive; it never changes the heap. *)
Theorem Is_equivalence (a b c : loc) (ea eb ec : CustomError) (h : heap) :
  h !! a = Some ea -> h !! b = Some eb -> h !! c = Some ec ->
  Is (Some a) (ECustom (Some a)) h = Ok (true, h) /\
  Is (Some a) (ECustom (Some b)) h = Is (Some b) (ECustom (Some a)) h /\
  (Is (Some a) (ECustom (Some b)) h = Ok (true, h) ->
   Is (Some b) (ECustom (Some c)) h = Ok (true, h) ->
   Is (Some a) (ECustom (Some c)) h = Ok (true, h)).
Proof.
  intros Ha Hb Hc.
  rewrite (Is_live a a ea ea h Ha Ha), (Is_live a b ea eb h Ha Hb),
    (Is_live b a eb ea h Hb Ha), (Is_live b c eb ec h Hb Hc),
    (Is_live a c ea ec h Ha Hc).
  split; [by rewrite Z.eqb_refl|]. split; [by rewrite Z.eqb_sym|].
  intros Hab Hbc. injection Hab as Hab. injection Hbc as Hbc.
  apply Z.eqb_eq in Hab, Hbc. rewrite Hab, Hbc. by rewrite Z.eqb_refl.
Qed.

Lemma Is_equivalence_witness :
  Is (Some 1%positive) (ECustom (Some 2%positive)) nested_heap =
  Is (Some 2%positive) (ECustom (Some 1%positive)) nested_heap.
Proof.
  apply (Is_equivalence 1%positive 2%positive 1%positive
           (mkCustomError 500%Z "outer" "a.go:3 f" [] (ECustom (Some 2%positive)))
           (mkCustomError 404%Z "inner" "b.go:9 g" [] (EPlain 5 "v is 0"))
           (mkCustomError 500%Z "outer" "a.go:3 f" [] (ECustom (Some 2%positive)))
           nested_heap); reflexivity.
Defined.

(** ** Chains built through the public functions *)

Lemma flat_insert (h : heap) (a : loc) (e : CustomError) :
  flat h -> IsCustomError (Err e) = false -> flat (<[a := e]> h).
Proof.
  intros Hflat He b eb Hb. destruct (decide (a = b)) as [<-|Hne].
  - rewrite lookup_insert_eq in Hb. by injection Hb as <-.
  - rewrite lookup_insert_ne in Hb by done. by eapply Hflat.
Qed.

Lemma run_wrap_flat (w : wrap_call) (stack : list Frame) (err r : error) (h h' : heap) :
  flat h -> run_wrap w stack err h = Ok (r, h') -> flat h'.
Proof.
  intros Hflat Hrun.
  destruct (IsCustomError err) eqn:Hc.
  - destruct err as [| |[a|]]; try discriminate.
    + destruct (h !! a) as [e|] eqn:Ha.
      * rewrite (run_wrap_custom w stack a e h Ha) in Hrun. injection Hrun as <- <-.
        apply flat_insert; [done|]. simpl. by eapply Hflat.
      * rewrite run_wrap_wrapError in Hrun. unfold wrapError, bind, deref in Hrun.
        by rewrite Ha in Hrun.
    + by destruct w.
  - rewrite (run_wrap_fresh w stack err h Hc) in Hrun. injection Hrun as <- <-.
    by apply flat_insert.
Qed.

Lemma api_heap_is_flat (h : heap) : api_heap h -> flat h.
Proof.
  induction 1 as [|h h' msg c p _ IH Hnew|h h' w stack err r _ IH Hrun].
  - intros a e Ha. by rewrite lookup_empty in Ha.
  - rewrite New_allocates in Hnew. injection Hnew as <- <-.
    by apply flat_insert.
  - by eapply run_wrap_flat.
Qed.

(** X20: in a heap built from nothing by New and the wrap entry points only,
    no CustomError has a CustomError as its cause, so chains have at most one
    link: for every allocated CustomError, two nested calls of Cause suffice,
    and the answer is the error itself when it has no cause and its direct
    cause otherwise. *)
Theorem api_heap_chains_are_short (h : heap) (a : loc) (e : CustomError) (fuel : nat) :
  api_heap h ->
  h !! a = Some e ->
  IsCustomError (Err e) = false /\
  Cause (S (S fuel)) (ECustom (Some a)) h =
    Done (if decide (Err e = ENil) then ECustom (Some a) else Err e).
Proof.
  intros Hapi Ha.
  pose proof (api_heap_is_flat h Hapi a e Ha) as Hflat.
  split; [done|].
  destruct (decide (Err e = ENil)) as [He|He].
  - apply Cause_terminal. by exists a, e.
  - rewrite (Cause_link h _ (Err e)); [|by exists a, e].
    by destruct (Err e).
Qed.

Lemma api_heap_chains_are_short_witness :
  Cause 2 (ECustom (Some 1%positive))
    {[ 1%positive :=
         mkCustomError 0%Z "An error occurred" "unknown" [] (EPlain 1 "v is 0") ]}
  = Done (EPlain 1 "v is 0").
Proof.
  apply (api_heap_chains_are_short
           {[ 1%positive :=
                mkCustomError 0%Z "An error occurred" "unknown" []
                  (EPlain 1 "v is 0") ]}
           1%positive
           (mkCustomError 0%Z "An error occurred" "unknown" [] (EPlain 1 "v is 0"))
           0).
  - apply (api_wrap ∅ _ CallWrapTrace [] (EPlain 1 "v is 0")
             (ECustom (Some 1%positive)) api_empty).
    vm_compute. reflexivity.
  - reflexivity.
Defined.
